(** * Grammar Scoring Engine: scoring, classification and metrics

    A shallow embedding of the analysis core of [Grammar Scoring Engine.py]
    (classifier, scorer, metrics computer, feedback generator, grammar-check
    step, transcription wrapper and the file / recording controllers),
    followed by the properties that its specification states about them.

    Conventions of the embedding:
    - a Python [str] is a [string]; its characters are the code points
      0..255, on which [str.lower] and [str.split] act as written below;
    - a Python [int] is a [Z]; a Python number that may be a [float]
      (weights, scores, durations, clock readings) is given by its value, an
      exact rational [Q], compared by value ([==]), as Python's [==]
      compares [92.0] and [92];
    - the speaking rate, whose value depends on the rounding of each
      operation, is computed on binary64 floats ([B64], the IEEE 754
      operations of the Standard Library's [SpecFloat]);
    - a Python [dict] with string keys is a [gmap string _];
    - a Python exception is a [Raise] in the [result] monad;
    - the external collaborators (Whisper, LanguageTool, textstat,
      soundfile, sounddevice, the clock) are the variables of a section. *)

From Stdlib Require Import ZArith QArith Qround Qminmax Qabs Lia Lqa Ascii String DecimalString.
From Stdlib Require Import Decimal DecimalPos DecimalZ.
From Stdlib Require Import Floats.SpecFloat.
From stdpp Require Import base option list strings gmap.

Local Open Scope Z_scope.

(** ** Exceptions *)

Inductive exn : Type :=
  | KeyError (key : string)
  | ZeroDivisionError
  | OverflowError
  | TypeError
  | ExternalError (what : string).

Inductive result (A : Type) : Type :=
  | Ok (a : A)
  | Raise (e : exn).
Arguments Ok {A} a.
Arguments Raise {A} e.

#[global] Instance result_ret : MRet result := fun _ a => Ok a.
#[global] Instance result_bind : MBind result := fun _ _ f m =>
  match m with
  | Ok a => f a
  | Raise e => Raise e
  end.

(** ** Python strings *)

Module PyStr.

(** [str.lower] on the code points below 256: [A]-[Z] and the accented
    capitals 192..222 (the multiplication sign 215 apart) move up by 32. *)
Definition lower_char (c : ascii) : ascii :=
  let n := N_of_ascii c in
  if ((65 <=? n) && (n <=? 90))%N || ((192 <=? n) && (n <=? 222) && negb (n =? 215))%N
  then ascii_of_N (n + 32)
  else c.

Fixpoint lower (s : string) : string :=
  match s with
  | EmptyString => EmptyString
  | String c s' => String (lower_char c) (lower s')
  end.

(** [s.startswith(sub)] *)
Fixpoint startswith (sub s : string) : bool :=
  match sub, s with
  | EmptyString, _ => true
  | String _ _, EmptyString => false
  | String a sub', String b s' => Ascii.eqb a b && startswith sub' s'
  end.

(** [sub in s] *)
Fixpoint contains (sub s : string) : bool :=
  startswith sub s ||
  match s with
  | EmptyString => false
  | String _ s' => contains sub s'
  end.

(** [s.count(sub)]: the non-overlapping occurrences, found from left to
    right; after a hit the scan resumes behind it, which [skip] counts
    down. The empty [sub] is found between all characters. *)
Fixpoint count_from (skip : nat) (sub s : string) : nat :=
  match s with
  | EmptyString => 0
  | String _ s' =>
      match skip with
      | S k => count_from k sub s'
      | O =>
          if startswith sub s
          then S (count_from (String.length sub - 1) sub s')
          else count_from 0 sub s'
      end
  end.

Definition count (sub s : string) : nat :=
  match sub with
  | EmptyString => S (String.length s)
  | String _ _ => count_from 0 sub s
  end.

(** Whitespace for [str.split()] without arguments. *)
Definition isspace (c : ascii) : bool :=
  let n := N_of_ascii c in
  (((9 <=? n) && (n <=? 13)) || ((28 <=? n) && (n <=? 32)) || (n =? 133) || (n =? 160))%N.

Definition flush (cur : string) : list string :=
  match cur with
  | EmptyString => []
  | String _ _ => [cur]
  end.

(** [s.split()]: the maximal runs of non-whitespace characters. *)
Fixpoint split_go (cur : string) (s : string) : list string :=
  match s with
  | EmptyString => flush cur
  | String c s' =>
      if isspace c
      then flush cur ++ split_go EmptyString s'
      else split_go (cur +:+ String c EmptyString) s'
  end.

Definition split (s : string) : list string := split_go EmptyString s.

(** [sep.join(l)] *)
Fixpoint join (sep : string) (l : list string) : string :=
  match l with
  | [] => EmptyString
  | [x] => x
  | x :: l' => x +:+ sep +:+ join sep l'
  end.

End PyStr.

(** ** Binary64

    A Python [float] is an IEEE 754 binary64 number: 53 bits of mantissa,
    rounding to nearest with ties to even, gradual underflow to zero and
    overflow to infinity. *)

Module B64.

Definition prec : Z := 53.
Definition emax : Z := 1024.

Definition float : Type := spec_float.

(** The quotient of two floats, as the processor rounds it. *)
Definition div (x y : float) : float := SFdiv prec emax x y.

(** The float nearest to an integer. *)
Definition of_Z (z : Z) : float := binary_normalize prec emax z 0 false.

(** The float nearest to a rational: the rounded quotient of its
    numerator and its denominator. On the value of a float it gives that
    float back. *)
Definition of_Q (q : Q) : float :=
  match Qnum q with
  | Z0 => S754_zero false
  | Zpos n => div (S754_finite false n 0) (S754_finite false (Qden q) 0)
  | Zneg n => div (S754_finite true n 0) (S754_finite false (Qden q) 0)
  end.

(** The value of a finite float, [m * 2 ^ e] with its sign. *)
Definition to_Q (x : float) : option Q :=
  match x with
  | S754_zero _ => Some 0%Q
  | S754_finite s m e =>
      let n := if s then Zneg m else Zpos m in
      Some match e with
           | Zneg p => Qmake n (2 ^ p)
           | _ => inject_Z (n * 2 ^ e)
           end
  | S754_infinity _ | S754_nan => None
  end.

(** [x == 0.0] *)
Definition is_zero (x : float) : bool :=
  match x with
  | S754_zero _ => true
  | _ => false
  end.

(** [x] is a zero, a finite float or an infinity, of sign bit [s]. *)
Definition signed (s : bool) (x : float) : Prop :=
  match x with
  | S754_zero s' | S754_infinity s' | S754_finite s' _ _ => s' = s
  | S754_nan => False
  end.

End B64.

(** ** Python numbers *)

Module PyNum.

(** A number is an [int] or a [float]. *)
Inductive number : Type :=
  | Int (z : Z)
  | Float (x : B64.float).

(** The value of a number, when it is finite. *)
Definition value (n : number) : option Q :=
  match n with
  | Int z => Some (inject_Z z)
  | Float x => B64.to_Q x
  end.

(** The conversion of an [int] operand of a float operation: the nearest
    float, and [OverflowError] beyond the largest one. *)
Definition float_of_int (z : Z) : result B64.float :=
  match B64.of_Z z with
  | S754_infinity _ => Raise OverflowError
  | x => Ok x
  end.

(** [a / b] on floats: only a zero divisor raises; a quotient too large
    is an infinity. *)
Definition truediv (a b : B64.float) : result B64.float :=
  if B64.is_zero b then Raise ZeroDivisionError else Ok (B64.div a b).

(** [max(a, b)]: the first argument unless the second is greater. *)
Definition max (a b : Q) : Q :=
  if Qlt_le_dec a b then b else a.

(** Rounding to the nearest integer, ties to the even one. *)
Definition round_half_even (x : Q) : Z :=
  let f := Qfloor x in
  match ((x - inject_Z f) ?= (1 # 2))%Q with
  | Lt => f
  | Gt => f + 1
  | Eq => if Z.even f then f else f + 1
  end.

(** [round(x, ndigits)] on a float, for [ndigits] as small as the
    program's: the value of [x] is rounded to the nearest multiple of
    [10 ** -ndigits], ties to the even one, and the float nearest to that
    decimal is returned; a zero keeps the sign of [x], and an infinity or
    a NaN is returned as it is. *)
Definition round (x : B64.float) (ndigits : nat) : B64.float :=
  match x, B64.to_Q x with
  | S754_finite s _ _, Some v =>
      let p := Z.to_pos (10 ^ Z.of_nat ndigits) in
      match round_half_even (v * inject_Z (Zpos p)) with
      | Z0 => S754_zero s
      | k => B64.of_Q (Qmake k p)
      end
  | _, _ => x
  end.

End PyNum.

(** ** Global constants *)

Definition ERROR_WEIGHTS : gmap string Q :=
  {[ "GRAMMAR" := 3%Q; "TYPOS" := 2%Q; "PUNCTUATION" := 1%Q; "STYLE" := (3 # 2)%Q ]}.

Definition FILLER_WORDS : list string :=
  ["um"; "uh"; "like"; "you know"; "ah"; "er"].

(** [d[key]] *)
Definition getitem {V} (d : gmap string V) (key : string) : result V :=
  match d !! key with
  | Some v => Ok v
  | None => Raise (KeyError key)
  end.

(** [d.get(key, default)] *)
Definition get {V} (d : gmap string V) (key : string) (default : V) : V :=
  match d !! key with
  | Some v => v
  | None => default
  end.

(** ** The error classifier *)

Record IssueMatch : Type := {
  offset : Z;
  errorLength : Z;
  message : string;
  ruleId : string;
  context : string;
  replacements : list string
}.

Inductive category : Type := GRAMMAR | TYPOS | PUNCTUATION | STYLE.

#[global] Instance category_eq_dec : EqDecision category.
Proof. solve_decision. Defined.

(** The string a category is in the program. *)
Definition category_name (c : category) : string :=
  match c with
  | GRAMMAR => "GRAMMAR"
  | TYPOS => "TYPOS"
  | PUNCTUATION => "PUNCTUATION"
  | STYLE => "STYLE"
  end.

Definition classify_error (match_ : IssueMatch) : category :=
  let rule_id := ruleId match_ in
  let message := PyStr.lower (message match_) in
  if String.eqb rule_id "MORFOLOGIK_RULE_EN_US" || PyStr.contains "spelling" message
  then TYPOS
  else if PyStr.contains "punctuation" message
  then PUNCTUATION
  else if PyStr.contains "style" message || PyStr.contains "readability" message
  then STYLE
  else GRAMMAR.

(** ** The scorer

    The last two statements of [check_grammar]: the weighted penalty is the
    sum over the items of the breakdown, and the score is clamped at 0.
    [map_fold] visits the items in the order of the map, a dict in the order
    of insertion; a sum of exact rationals does not depend on it. A category
    without a weight raises [KeyError], as [ERROR_WEIGHTS[cat]] does. *)

Definition weighted_penalty (error_breakdown : gmap string Z) : result Q :=
  map_fold
    (fun cat count acc =>
       total ← acc;
       weight ← getitem ERROR_WEIGHTS cat;
       mret (total + weight * inject_Z count)%Q)
    (Ok 0%Q) error_breakdown.

Definition overall_score (error_breakdown : gmap string Z) : result Q :=
  weighted_penalty ← weighted_penalty error_breakdown;
  mret (PyNum.max (100 - weighted_penalty)%Q 0%Q).

(** ** The metrics computer *)

Record Metrics : Type := {
  score : Q;
  word_count : Z;
  wpm : PyNum.number;
  filler_count : Z;
  errors : gmap string Z
}.

(** The right-hand side of the assignment to [wpm]:
    [round(word_count / (audio_duration / 60), 2) if audio_duration > 0 else 0].
    The duration is given by its value and enters the first division as the
    float of that value; [60] and [word_count] are converted as a float
    division converts an [int] operand. The division is a parameter,
    [PyNum.truediv] in the program, so that a property can tell whether the
    expression divides at all. *)
Definition words_per_minute (truediv : B64.float → B64.float → result B64.float)
    (word_count : Z) (audio_duration : Q) : result PyNum.number :=
  if Qlt_le_dec 0 audio_duration
  then minutes ← truediv (B64.of_Q audio_duration) (B64.of_Z 60);
       count ← PyNum.float_of_int word_count;
       rate ← truediv count minutes;
       mret (PyNum.Float (PyNum.round rate 2))
  else mret (PyNum.Int 0).

Definition compute_metrics (transcript : string) (audio_duration : Q)
    (error_breakdown : gmap string Z) (overall_score : Q) : result Metrics :=
  let words := PyStr.split transcript in
  let word_count := Z.of_nat (length words) in
  wpm ← words_per_minute PyNum.truediv word_count audio_duration;
  let transcript_lower := PyStr.lower transcript in
  let filler_count :=
    foldl (fun total filler => total + Z.of_nat (PyStr.count filler transcript_lower))
          0 FILLER_WORDS in
  mret {| score := overall_score;
          word_count := word_count;
          wpm := wpm;
          filler_count := filler_count;
          errors := {[ "GRAMMAR" := get error_breakdown "GRAMMAR" 0;
                       "TYPOS" := get error_breakdown "TYPOS" 0;
                       "PUNCTUATION" := get error_breakdown "PUNCTUATION" 0 ]} |}.

(** ** The feedback generator *)

Definition TYPOS_SUGGESTION : string :=
  "Review suggested corrections for typos and consider using a spell-checker.".
Definition GRAMMAR_SUGGESTION : string :=
  "Review grammar suggestions and study common grammatical patterns.".
Definition PUNCTUATION_SUGGESTION : string :=
  "Review punctuation guidelines to improve sentence clarity.".
Definition STYLE_SUGGESTION : string :=
  "Consider revising stylistically ambiguous sentences for better readability.".
Definition NO_FEEDBACK : string :=
  "No additional contextual feedback available.".

(** [list(dict.fromkeys(l))]: a key that is already there keeps its place. *)
Definition fromkeys {A} `{EqDecision A} (l : list A) : list A :=
  foldl (fun keys k => if decide (k ∈ keys) then keys else keys ++ [k]) [] l.

(** The body of the loop: four independent tests on one detail. *)
Definition feedback_step (suggestions : list string) (detail : string) : list string :=
  let suggestions :=
    if PyStr.contains "Category: TYPOS" detail
    then suggestions ++ [TYPOS_SUGGESTION] else suggestions in
  let suggestions :=
    if PyStr.contains "Category: GRAMMAR" detail
    then suggestions ++ [GRAMMAR_SUGGESTION] else suggestions in
  let suggestions :=
    if PyStr.contains "Category: PUNCTUATION" detail
    then suggestions ++ [PUNCTUATION_SUGGESTION] else suggestions in
  if PyStr.contains "Category: STYLE" detail
  then suggestions ++ [STYLE_SUGGESTION] else suggestions.

Definition contextual_language_feedback (text : string) (error_details : list string) : string :=
  let suggestions := foldl feedback_step [] error_details in
  let suggestions := fromkeys suggestions in
  match suggestions with
  | [] => NO_FEEDBACK
  | _ :: _ => PyStr.join " " suggestions
  end.

Definition nl : string := String "010" EmptyString.

(** [str(n)] for an [int]. *)
Definition str_int (n : Z) : string := NilZero.string_of_int (Z.to_int n).

(** [int(x)]: truncation towards zero. *)
Definition py_int (x : Q) : Z := Z.quot (Qnum x) (Zpos (Qden x)).

(** [str(e)] of a caught exception. *)
Definition exn_str (e : exn) : string :=
  match e with
  | KeyError key => "'" +:+ key +:+ "'"
  | ZeroDivisionError => "float division by zero"
  | OverflowError => "int too large to convert to float"
  | TypeError => "unsupported operand type(s)"
  | ExternalError what => what
  end.

(** ** The world of the controllers *)

Definition Stream : Type := nat.
Definition Chunk : Type := list Q.

Definition SAMPLE_RATE : Z := 44100.
Definition TEMP_AUDIO_FILE : string := "temp_recording.wav".

Inductive pipeline_step : Type :=
  | Transcribe | CheckGrammar | StyleAnalysis | Feedback | ComputeMetrics | Report.

(** What a controller does to the outside, in the order it does it. *)
Inductive event : Type :=
  | Invoke (step : pipeline_step) (arg : string)
  | SfInfo (path : string)
  | SfWrite (path : string) (data : list Q) (rate : Z)
  | OsRemove (path : string)
  | ShowError (title msg : string)
  | OpenStream
  | StreamStart (s : Stream)
  | StreamStop (s : Stream)
  | StreamClose (s : Stream)
  | After (job : string)
  | AfterCancel (job : string).

(** The module-level variables of the recording controller. *)
Record Recorder : Type := {
  recording_stream : option Stream;
  recorded_frames : list Chunk;
  recording_start_time : option Q;
  timer_job : option string
}.

(** The widgets that show an analysis. *)
Record Display : Type := {
  transcript_text : string;
  score_label : string;
  errors_text : string;
  style_text : string;
  report_text : string
}.

Record World : Type := {
  recorder : Recorder;
  display : Display;
  timer_label : string;
  inline_errors : gmap string IssueMatch;
  trace : list event
}.

Definition with_recorder (r : Recorder) (w : World) : World :=
  {| recorder := r; display := display w; timer_label := timer_label w;
     inline_errors := inline_errors w; trace := trace w |}.
Definition with_display (d : Display) (w : World) : World :=
  {| recorder := recorder w; display := d; timer_label := timer_label w;
     inline_errors := inline_errors w; trace := trace w |}.
Definition with_timer_label (text : string) (w : World) : World :=
  {| recorder := recorder w; display := display w; timer_label := text;
     inline_errors := inline_errors w; trace := trace w |}.
Definition with_inline_errors (m : gmap string IssueMatch) (w : World) : World :=
  {| recorder := recorder w; display := display w; timer_label := timer_label w;
     inline_errors := m; trace := trace w |}.
Definition with_event (e : event) (w : World) : World :=
  {| recorder := recorder w; display := display w; timer_label := timer_label w;
     inline_errors := inline_errors w; trace := trace w ++ [e] |}.

(** The state of the module when the window opens. *)
Definition initial_world : World :=
  {| recorder := {| recording_stream := None; recorded_frames := [];
                    recording_start_time := None; timer_job := None |};
     display := {| transcript_text := ""; score_label := "Grammar Score: N/A";
                   errors_text := ""; style_text := ""; report_text := "" |};
     timer_label := "Recording Time: 0 sec";
     inline_errors := ∅;
     trace := [] |}.

(** What the outside answers during one call of a controller. *)
Record Env : Type := {
  now : Q;
  askopenfilename : string;
  model_transcribe : result string;
  sf_info_duration : result Q;
  sf_write : result unit;
  os_remove : result unit;
  sd_InputStream : result Stream;
  stream_start : result unit;
  stream_stop : result unit;
  stream_close : result unit;
  root_after : string
}.

(** Controllers run in a state monad that keeps the world an exception
    leaves behind. *)
Definition M (A : Type) : Type := World → result A * World.

#[global] Instance M_ret : MRet M := fun _ a w => (Ok a, w).
#[global] Instance M_bind : MBind M := fun _ _ f m w =>
  match m w with
  | (Ok a, w') => f a w'
  | (Raise e, w') => (Raise e, w')
  end.

Definition modify (f : World → World) : M unit := fun w => (Ok tt, f w).
Definition gets {A} (f : World → A) : M A := fun w => (Ok (f w), w).
Definition lift {A} (r : result A) : M A := fun w => (r, w).
Definition external {A} (e : event) (answer : result A) : M A :=
  fun w => (answer, with_event e w).

(** [try: body except Exception as e: handler(e)] *)
Definition try_except {A} (body : M A) (handler : exn → M A) : M A := fun w =>
  match body w with
  | (Ok a, w') => (Ok a, w')
  | (Raise e, w') => handler e w'
  end.

Definition showerror (title msg : string) : M unit :=
  modify (with_event (ShowError title msg)).

(** ** The analysis steps and the controllers *)

Record AdvancedStyle : Type := {
  flesch_reading_ease : Q;
  flesch_kincaid_grade : Q;
  gunning_fog : Q;
  style_comment : string;
  advanced_recommendations : string
}.

(** What one analysis pass computes (the locals of [process_file] and of
    [stop_recording] between the transcription and the widget updates). *)
Record Analysis : Type := {
  a_overall_score : Q;
  a_error_details : list string;
  a_error_breakdown : gmap string Z;
  a_total_errors : Z;
  a_advanced_style : AdvancedStyle;
  a_contextual_feedback : string;
  a_metrics : Metrics;
  a_report : string
}.

(** The collaborators that answer the same way whenever they are asked. *)
Record Tools : Type := {
  (** LanguageTool: [tool.check(text)]. *)
  tool_check : string → list IssueMatch;
  (** textstat: the three readability indices. *)
  textstat_flesch_reading_ease : string → Q;
  textstat_flesch_kincaid_grade : string → Q;
  textstat_gunning_fog : string → Q;
  (** The text of a number in an f-string: plain, and with [:.2f]. *)
  str_num : Q → string;
  fmt_2f : Q → string;
  (** The text of a float in an f-string. *)
  str_float : B64.float → string
}.

Section Engine.

Variable tools : Tools.

Definition error_info (match_ : IssueMatch) (category : string) : string :=
  let suggestion :=
    match replacements match_ with
    | first :: _ => first
    | [] => "No suggestion available"
    end in
  let explanation :=
    "This error occurs because: " +:+ message match_ +:+ ". Context: '"
      +:+ context match_ +:+ "'." in
  "Error: " +:+ message match_ +:+ nl
    +:+ "Category: " +:+ category +:+ nl
    +:+ "Context: '" +:+ context match_ +:+ "'" +:+ nl
    +:+ "Suggested Correction: " +:+ suggestion +:+ nl
    +:+ "Explanation: " +:+ explanation +:+ nl
    +:+ "-----".

(** The loop of [check_grammar] over the matches. *)
Fixpoint check_loop (matches : list IssueMatch) (error_details : list string)
    (error_breakdown : gmap string Z) : result (list string * gmap string Z) :=
  match matches with
  | [] => Ok (error_details, error_breakdown)
  | match_ :: rest =>
      let category := category_name (classify_error match_) in
      n ← getitem error_breakdown category;
      check_loop rest (error_details ++ [error_info match_ category])
                 (<[category := n + 1]> error_breakdown)
  end.

Definition check_grammar (text : string)
    : result (Q * list string * gmap string Z * Z) :=
  let matches := tool_check tools text in
  '(error_details, error_breakdown) ←
    check_loop matches []
      {[ "GRAMMAR" := 0; "TYPOS" := 0; "PUNCTUATION" := 0; "STYLE" := 0 ]};
  overall_score ← overall_score error_breakdown;
  mret (overall_score, error_details, error_breakdown, Z.of_nat (length matches)).

Definition advanced_style_analysis (text : string) : AdvancedStyle :=
  let fre := textstat_flesch_reading_ease tools text in
  let fk_grade := textstat_flesch_kincaid_grade tools text in
  let gunning := textstat_gunning_fog tools text in
  let comment :=
    if Qlt_le_dec 60 fre
    then "The text is clear and easily understandable."
    else if Qlt_le_dec 40 fre
    then "The text is moderately complex; consider simplifying sentences for clarity."
    else "The text is hard to read; consider revising for improved clarity and tone." in
  let suggestions := [] in
  let suggestions :=
    if Qlt_le_dec 10 fk_grade
    then suggestions ++ ["Simplify sentence structure to lower the reading grade level."]
    else suggestions in
  let suggestions :=
    if Qlt_le_dec 12 gunning
    then suggestions ++ ["Reduce vocabulary complexity to lower the Gunning Fog Index."]
    else suggestions in
  let suggestions :=
    match suggestions with
    | [] => suggestions ++ ["Your writing style is effective."]
    | _ :: _ => suggestions
    end in
  {| flesch_reading_ease := fre;
     flesch_kincaid_grade := fk_grade;
     gunning_fog := gunning;
     style_comment := comment;
     advanced_recommendations := PyStr.join " " suggestions |}.

(** The text of the speaking rate in an f-string. *)
Definition str_number (n : PyNum.number) : string :=
  match n with
  | PyNum.Int z => str_int z
  | PyNum.Float x => str_float tools x
  end.

Definition generate_report (metrics : Metrics) (advanced_style : AdvancedStyle)
    (contextual_feedback : string) : string :=
  "Grammar Analysis Report" +:+ nl
    +:+ "--------------------------" +:+ nl
    +:+ "Overall Score: " +:+ str_num tools (score metrics) +:+ "/100" +:+ nl
    +:+ "Word Count: " +:+ str_int (word_count metrics) +:+ nl
    +:+ "Speaking Rate: " +:+ str_number (wpm metrics) +:+ " WPM" +:+ nl
    +:+ "Filler Words: " +:+ str_int (filler_count metrics) +:+ nl +:+ nl
    +:+ "Error Breakdown:" +:+ nl
    +:+ "- Grammar: " +:+ str_int (get (errors metrics) "GRAMMAR" 0) +:+ nl
    +:+ "- Spelling: " +:+ str_int (get (errors metrics) "TYPOS" 0) +:+ nl
    +:+ "- Punctuation: " +:+ str_int (get (errors metrics) "PUNCTUATION" 0) +:+ nl +:+ nl
    +:+ "Advanced Style Metrics:" +:+ nl
    +:+ "- Flesch Reading Ease: " +:+ fmt_2f tools (flesch_reading_ease advanced_style) +:+ nl
    +:+ "- Flesch-Kincaid Grade Level: " +:+ fmt_2f tools (flesch_kincaid_grade advanced_style) +:+ nl
    +:+ "- Gunning Fog Index: " +:+ fmt_2f tools (gunning_fog advanced_style) +:+ nl
    +:+ "Style Comment: " +:+ style_comment advanced_style +:+ nl
    +:+ "Recommendations: " +:+ advanced_recommendations advanced_style +:+ nl +:+ nl
    +:+ "Contextual Language Feedback:" +:+ nl
    +:+ contextual_feedback +:+ nl.

Definition audio_callback (indata : Chunk) : M unit :=
  modify (fun w =>
    let r := recorder w in
    with_recorder {| recording_stream := recording_stream r;
                     recorded_frames := recorded_frames r ++ [indata];
                     recording_start_time := recording_start_time r;
                     timer_job := timer_job r |} w).

Definition transcribe_audio (env : Env) (file_path : string) : M string :=
  try_except
    (external (Invoke Transcribe file_path) (model_transcribe env))
    (fun e =>
       _ ← showerror "Transcription Error" ("Error during transcription: " +:+ exn_str e);
       mret "").

Definition clear_inline_errors : M unit :=
  modify (with_inline_errors ∅).

(** The five calls that follow the transcription, in both controllers;
    each is entered in the trace before it runs. *)
Definition analyse (transcript : string) (audio_duration : Q) : M Analysis :=
  _ ← modify (with_event (Invoke CheckGrammar transcript));
  '(overall_score, error_details, error_breakdown, total_errors) ←
    lift (check_grammar transcript);
  _ ← modify (with_event (Invoke StyleAnalysis transcript));
  let advanced_style := advanced_style_analysis transcript in
  _ ← modify (with_event (Invoke Feedback transcript));
  let contextual_feedback := contextual_language_feedback transcript error_details in
  _ ← modify (with_event (Invoke ComputeMetrics transcript));
  metrics ← lift (compute_metrics transcript audio_duration error_breakdown overall_score);
  _ ← modify (with_event (Invoke Report transcript));
  let report := generate_report metrics advanced_style contextual_feedback in
  mret {| a_overall_score := overall_score;
          a_error_details := error_details;
          a_error_breakdown := error_breakdown;
          a_total_errors := total_errors;
          a_advanced_style := advanced_style;
          a_contextual_feedback := contextual_feedback;
          a_metrics := metrics;
          a_report := report |}.

(** The widget updates that follow, in both controllers. *)
Definition show_analysis (transcript : string) (a : Analysis) : M unit :=
  _ ← modify (with_display
    {| transcript_text := transcript;
       score_label :=
         "Grammar Score: " +:+ str_num tools (a_overall_score a)
           +:+ " (Total Errors: " +:+ str_int (a_total_errors a) +:+ ")";
       errors_text :=
         match a_error_details a with
         | [] => "No grammatical errors found."
         | _ :: _ => PyStr.join (nl +:+ nl) (a_error_details a)
         end;
       style_text :=
         "Flesch Reading Ease Score: "
           +:+ fmt_2f tools (flesch_reading_ease (a_advanced_style a)) +:+ nl
           +:+ "Flesch-Kincaid Grade Level: "
           +:+ fmt_2f tools (flesch_kincaid_grade (a_advanced_style a)) +:+ nl
           +:+ "Gunning Fog Index: "
           +:+ fmt_2f tools (gunning_fog (a_advanced_style a)) +:+ nl
           +:+ "Style Comment: " +:+ style_comment (a_advanced_style a) +:+ nl
           +:+ "Recommendations: " +:+ advanced_recommendations (a_advanced_style a);
       report_text := a_report a |});
  clear_inline_errors.

Definition process_file (env : Env) : M unit :=
  let file_path := askopenfilename env in
  match file_path with
  | EmptyString => mret tt
  | String _ _ =>
      transcript ← transcribe_audio env file_path;
      audio_duration ←
        try_except (external (SfInfo file_path) (sf_info_duration env))
                   (fun _ => mret 0%Q);
      a ← analyse transcript audio_duration;
      show_analysis transcript a
  end.

Definition update_timer (env : Env) : M unit :=
  start ← gets (fun w => recording_start_time (recorder w));
  match start with
  | Some recording_start_time =>
      let elapsed := py_int (now env - recording_start_time) in
      _ ← modify (with_timer_label ("Recording Time: " +:+ str_int elapsed +:+ " sec"));
      _ ← modify (with_event (After (root_after env)));
      modify (fun w =>
        let r := recorder w in
        with_recorder {| recording_stream := recording_stream r;
                         recorded_frames := recorded_frames r;
                         recording_start_time := Some recording_start_time;
                         timer_job := Some (root_after env) |} w)
  | None => mret tt
  end.

Definition start_recording (env : Env) : M unit :=
  _ ← modify (fun w =>
    let r := recorder w in
    with_recorder {| recording_stream := recording_stream r;
                     recorded_frames := [];
                     recording_start_time := Some (now env);
                     timer_job := timer_job r |} w);
  _ ← update_timer env;
  try_except
    (s ← external OpenStream (sd_InputStream env);
     _ ← modify (fun w =>
       let r := recorder w in
       with_recorder {| recording_stream := Some s;
                        recorded_frames := recorded_frames r;
                        recording_start_time := recording_start_time r;
                        timer_job := timer_job r |} w);
     external (StreamStart s) (stream_start env))
    (fun e => showerror "Recording Error" ("Error starting recording: " +:+ exn_str e)).

Definition stop_recording (env : Env) : M unit :=
  try_except
    (stream ← gets (fun w => recording_stream (recorder w));
     match stream with
     | Some s =>
         _ ← external (StreamStop s) (stream_stop env);
         _ ← external (StreamClose s) (stream_close env);
         _ ← modify (fun w =>
           let r := recorder w in
           with_recorder {| recording_stream := None;
                            recorded_frames := recorded_frames r;
                            recording_start_time := recording_start_time r;
                            timer_job := timer_job r |} w);
         job ← gets (fun w => timer_job (recorder w));
         _ ← match job with
             | Some j =>
                 if decide (j = "") then mret tt else
                 _ ← modify (with_event (AfterCancel j));
                 modify (fun w =>
                   let r := recorder w in
                   with_recorder {| recording_stream := recording_stream r;
                                    recorded_frames := recorded_frames r;
                                    recording_start_time := recording_start_time r;
                                    timer_job := None |} w)
             | None => mret tt
             end;
         start ← gets (fun w => recording_start_time (recorder w));
         audio_duration ←
           match start with
           | Some recording_start_time => mret (now env - recording_start_time)%Q
           | None => lift (Raise TypeError)
           end;
         frames ← gets (fun w => recorded_frames (recorder w));
         match frames with
         | _ :: _ =>
             let audio_data := concat frames in
             _ ← external (SfWrite TEMP_AUDIO_FILE audio_data SAMPLE_RATE) (sf_write env);
             _ ← modify (with_timer_label "Recording Stopped");
             transcript ← transcribe_audio env TEMP_AUDIO_FILE;
             a ← analyse transcript audio_duration;
             _ ← show_analysis transcript a;
             try_except (external (OsRemove TEMP_AUDIO_FILE) (os_remove env))
                        (fun _ => mret tt)
         | [] => modify (with_timer_label "No audio data recorded.")
         end
     | None => modify (with_timer_label "Recording was not started.")
     end)
    (fun e => showerror "Recording Error" ("Error stopping recording: " +:+ exn_str e)).

End Engine.

(** * Vocabulary of the properties *)

(** [sub] occurs in [s]: some text before it, some text behind it. *)
Definition is_substring (sub s : string) : Prop :=
  ∃ before behind, s = before +:+ sub +:+ behind.

(** Following the spec's words: the raw substring occurrence count, the
    number of positions of [s] at which [sub] starts, overlapping or not. *)
Fixpoint occurrences (sub s : string) : nat :=
  (if PyStr.startswith sub s then 1 else 0) +
  match s with
  | EmptyString => 0
  | String _ s' => occurrences sub s'
  end.

Fixpoint occurs_in (c : ascii) (s : string) : bool :=
  match s with
  | EmptyString => false
  | String b s' => Ascii.eqb c b || occurs_in c s'
  end.

(** A word whose first character does not come back in it cannot overlap
    itself. *)
Definition first_char_unique (sub : string) : bool :=
  match sub with
  | EmptyString => false
  | String c rest => negb (occurs_in c rest)
  end.

(** Following the spec's words: the ordered rules of the classifier with
    each keyword looked up in the message as it is received. *)
Definition classify_as_stated (m : IssueMatch) : category :=
  if String.eqb (ruleId m) "MORFOLOGIK_RULE_EN_US" || PyStr.contains "spelling" (message m)
  then TYPOS
  else if PyStr.contains "punctuation" (message m)
  then PUNCTUATION
  else if PyStr.contains "style" (message m) || PyStr.contains "readability" (message m)
  then STYLE
  else GRAMMAR.

(** The breakdown with the four categories and the given counts. *)
Definition breakdown (g t p s : Z) : gmap string Z :=
  {[ "GRAMMAR" := g; "TYPOS" := t; "PUNCTUATION" := p; "STYLE" := s ]}.

(** The keys of a breakdown. *)
Definition four_categories : gset string :=
  {[ "GRAMMAR"; "TYPOS"; "PUNCTUATION"; "STYLE" ]}.

(** The number of matches that the classifier puts in a category. *)
Definition classified (c : category) (matches : list IssueMatch) : Z :=
  Z.of_nat (length (filter (fun m => classify_error m = c) matches)).

(** The marker of a category in an error detail. *)
Definition tag (c : category) : string :=
  match c with
  | TYPOS => "Category: TYPOS"
  | GRAMMAR => "Category: GRAMMAR"
  | PUNCTUATION => "Category: PUNCTUATION"
  | STYLE => "Category: STYLE"
  end.

Definition suggestion (c : category) : string :=
  match c with
  | TYPOS => TYPOS_SUGGESTION
  | GRAMMAR => GRAMMAR_SUGGESTION
  | PUNCTUATION => PUNCTUATION_SUGGESTION
  | STYLE => STYLE_SUGGESTION
  end.

(** The categories whose tag one detail shows, in the order in which the
    generator looks for them. *)
Definition observed_in (detail : string) : list category :=
  filter (fun c => PyStr.contains (tag c) detail = true)
         [TYPOS; GRAMMAR; PUNCTUATION; STYLE].

(** The tags observed over a list of details, detail by detail. *)
Definition observations (error_details : list string) : list category :=
  error_details ≫= observed_in.

(** Kinds of events in a trace. *)
Definition writes_file (e : event) : Prop :=
  match e with SfWrite _ _ _ => True | _ => False end.
Definition runs_pipeline (e : event) : Prop :=
  match e with Invoke _ _ => True | _ => False end.
Definition hard_error (e : event) : Prop :=
  match e with ShowError _ _ => True | _ => False end.

(** One call of a controller, or one callback of the window or of the audio
    stream. The correction tools of the window, which are not embedded, edit
    the transcript widget and the inline highlights only. *)
Inductive step (tools : Tools) : World → World → Prop :=
  | step_process_file env w : step tools w (process_file tools env w).2
  | step_start_recording env w : step tools w (start_recording env w).2
  | step_stop_recording env w : step tools w (stop_recording tools env w).2
  | step_update_timer env w : step tools w (update_timer env w).2
  | step_audio_callback indata w : step tools w (audio_callback indata w).2
  | step_correction d m w : step tools w (with_display d (with_inline_errors m w)).

(** The worlds the program can be in. *)
Definition reachable (tools : Tools) (w : World) : Prop :=
  rtc (step tools) initial_world w.

(** A recording only runs after its start time was taken. *)
Definition started (w : World) : Prop :=
  is_Some (recording_stream (recorder w)) →
  is_Some (recording_start_time (recorder w)).

Definition has_start_time (w : World) : Prop :=
  is_Some (recording_start_time (recorder w)).

(** A controller keeps a property of the world, however it ends. *)
Definition preserves {A} (P : World → Prop) (m : M A) : Prop :=
  ∀ w, P w → P (m w).2.

(** A property that only looks at the variables of the recorder. *)
Definition about_recorder (P : World → Prop) : Prop :=
  ∀ w w', recorder w = recorder w' → P w → P w'.

(** What line 80 gives for a transcript and a duration. *)
Definition speaking_rate (transcript : string) (audio_duration : Q) : result PyNum.number :=
  words_per_minute PyNum.truediv (Z.of_nat (length (PyStr.split transcript))) audio_duration.

(** Line 80 has a value for the transcript and the duration: it does not
    raise. *)
Definition rate_defined (transcript : string) (audio_duration : Q) : Prop :=
  ∃ rate, speaking_rate transcript audio_duration = Ok rate.

(** A number that is not negative: the int 0 or above, or a float with a
    clear sign bit ([0.0], a positive float or [inf]). *)
Definition nonnegative (n : PyNum.number) : Prop :=
  match n with
  | PyNum.Int z => 0 ≤ z
  | PyNum.Float x => B64.signed false x
  end.


(** A number is finite and its value is [q]: Python's [n == q]. *)
Definition has_value (n : PyNum.number) (q : Q) : Prop :=
  ∃ v, PyNum.value n = Some v ∧ (v == q)%Q.

(** ** Inputs of the examples *)

Definition capitalised_match : IssueMatch :=
  {| offset := 0; errorLength := 8;
     message := "Spelling, punctuation and style";
     ruleId := "UPPERCASE_SENTENCE_START";
     context := "teh cat";
     replacements := ["the"] |}.

Definition punctuation_style_match : IssueMatch :=
  {| offset := 3; errorLength := 1;
     message := "Punctuation: this STYLE of comma hurts readability";
     ruleId := "COMMA_PARENTHESIS_WHITESPACE";
     context := "a ,b";
     replacements := [] |}.

Definition typo_match : IssueMatch :=
  {| offset := 0; errorLength := 3;
     message := "Possible spelling mistake found.";
     ruleId := "MORFOLOGIK_RULE_EN_US";
     context := "teh cat";
     replacements := ["the"; "tea"] |}.

Definition agreement_match : IssueMatch :=
  {| offset := 8; errorLength := 4;
     message := "The verb does not agree with the subject.";
     ruleId := "SUBJECT_VERB_AGREEMENT";
     context := "the cats runs";
     replacements := ["run"] |}.

(** A grammar tool that finds the same two issues in every text but the
    empty one, a flat readability, and numbers shown as fractions. *)
Definition example_tools : Tools :=
  {| tool_check := fun text =>
       match text with
       | EmptyString => []
       | String _ _ => [typo_match; agreement_match]
       end;
     textstat_flesch_reading_ease := fun _ => 70%Q;
     textstat_flesch_kincaid_grade := fun _ => 5%Q;
     textstat_gunning_fog := fun _ => 7%Q;
     str_num := fun x => str_int (Qnum x) +:+ "/" +:+ str_int (Zpos (Qden x));
     fmt_2f := fun x => str_int (Qnum x) +:+ "/" +:+ str_int (Zpos (Qden x));
     str_float := fun x =>
       match B64.to_Q x with
       | Some v => str_int (Qnum v) +:+ "/" +:+ str_int (Zpos (Qden v))
       | None => "inf"
       end |}.

(** A call during which the audio device works and Whisper does not. *)
Definition example_env : Env :=
  {| now := 12%Q;
     askopenfilename := "talk.wav";
     model_transcribe := Raise (ExternalError "cannot decode talk.wav");
     sf_info_duration := Ok 10%Q;
     sf_write := Ok tt;
     os_remove := Ok tt;
     sd_InputStream := Ok 1%nat;
     stream_start := Ok tt;
     stream_stop := Ok tt;
     stream_close := Ok tt;
     root_after := "after#1" |}.

(** A call during which the audio device fails when the stream is
    stopped. *)
Definition device_failure_env : Env :=
  {| now := 12%Q;
     askopenfilename := "";
     model_transcribe := Ok "";
     sf_info_duration := Ok 0%Q;
     sf_write := Ok tt;
     os_remove := Ok tt;
     sd_InputStream := Ok 1%nat;
     stream_start := Ok tt;
     stream_stop := Raise (ExternalError "PortAudio error");
     stream_close := Ok tt;
     root_after := "after#2" |}.

(** The smallest positive float, 5e-324. *)
Definition smallest_float : Q := 1 # 2 ^ 1074.

(** The world after [Start Recording] was pressed and before any chunk
    arrived. *)
Definition recording_world : World := (start_recording example_env initial_world).2.

(** ** Vocabulary of the further properties *)

(** The first replacement of a match, or the text shown when it has none. *)
Definition first_suggestion (m : IssueMatch) : string :=
  default "No suggestion available" (head (replacements m)).

(** A text of whitespace only. *)
Fixpoint blank (s : string) : bool :=
  match s with
  | EmptyString => true
  | String c s' => PyStr.isspace c && blank s'
  end.

(** The only file the program writes and removes, and the rate it writes
    it at. *)
Definition temp_file_only (e : event) : Prop :=
  match e with
  | SfWrite path _ rate => path = TEMP_AUDIO_FILE ∧ rate = SAMPLE_RATE
  | OsRemove path => path = TEMP_AUDIO_FILE
  | _ => True
  end.

Definition buffer_is (frames : list Chunk) (start : option Q) (w : World) : Prop :=
  recorded_frames (recorder w) = frames ∧ recording_start_time (recorder w) = start.

Definition recording_error (e : event) : Prop :=
  match e with ShowError "Recording Error" _ => True | _ => False end.

(** [f"error_{i}"] *)
Definition error_tag (i : Z) : string := "error_" +:+ str_int i.

(** The loop of [inline_error_correction] over [enumerate(matches)], on the
    registry of the highlights. *)
Fixpoint inline_loop (i : Z) (matches : list IssueMatch)
    (registry : gmap string IssueMatch) : gmap string IssueMatch :=
  match matches with
  | [] => registry
  | match_ :: rest => inline_loop (i + 1) rest (<[error_tag i := match_]> registry)
  end.

(** [inline_error_correction], as far as the registry goes: the ranges and
    the look of the tags in the transcript widget are Tk's. *)
Definition inline_error_correction (tools : Tools) : M unit :=
  _ ← clear_inline_errors;
  transcript ← gets (fun w => transcript_text (display w));
  let matches := tool_check tools transcript in
  modify (fun w => with_inline_errors (inline_loop 0 matches (inline_errors w)) w).

Definition CLEAR_COMMENT : string := "The text is clear and easily understandable.".

Definition EFFECTIVE_STYLE : string := "Your writing style is effective.".

Definition SIMPLIFY_STRUCTURE : string :=
  "Simplify sentence structure to lower the reading grade level.".

Definition REDUCE_VOCABULARY : string :=
  "Reduce vocabulary complexity to lower the Gunning Fog Index.".

Definition is_write (e : event) : bool :=
  match e with SfWrite _ _ _ => true | _ => false end.

Definition is_remove (e : event) : bool :=
  match e with OsRemove _ => true | _ => false end.

(** More files written than removed so far. *)
Definition removals_covered (w : World) : Prop :=
  (length (filter (fun e => is_remove e = true) (trace w))
   ≤ length (filter (fun e => is_write e = true) (trace w)))%nat.

(** ** Inputs of the further examples *)

(** A call during which the disk is full. *)
Definition write_failure_env : Env :=
  {| now := 20%Q;
     askopenfilename := "";
     model_transcribe := Ok " hello there";
     sf_info_duration := Ok 0%Q;
     sf_write := Raise (ExternalError "disk full");
     os_remove := Ok tt;
     sd_InputStream := Ok 2%nat;
     stream_start := Ok tt;
     stream_stop := Ok tt;
     stream_close := Ok tt;
     root_after := "after#3" |}.

(** A call half a minute after that of [example_env], during which
    everything works. *)
Definition later_env : Env :=
  {| now := 42%Q;
     askopenfilename := "talk.wav";
     model_transcribe := Ok "teh cats runs";
     sf_info_duration := Ok 10%Q;
     sf_write := Ok tt;
     os_remove := Ok tt;
     sd_InputStream := Ok 2%nat;
     stream_start := Ok tt;
     stream_stop := Ok tt;
     stream_close := Ok tt;
     root_after := "after#4" |}.

(** The world after one chunk of two samples arrived. *)
Definition recorded_world : World := (audio_callback [1%Q; 2%Q] recording_world).2.

(** The world after that recording was stopped half a minute later. *)
Definition finished_world : World :=
  (stop_recording example_tools later_env recorded_world).2.

(** A grammar tool that finds a hundred typos. *)
Definition strict_tools : Tools :=
  {| tool_check := fun _ => replicate 100 typo_match;
     textstat_flesch_reading_ease := textstat_flesch_reading_ease example_tools;
     textstat_flesch_kincaid_grade := textstat_flesch_kincaid_grade example_tools;
     textstat_gunning_fog := textstat_gunning_fog example_tools;
     str_num := str_num example_tools;
     fmt_2f := fmt_2f example_tools;
     str_float := str_float example_tools |}.

(** The world with a transcript in its widget. *)
Definition transcript_world : World :=
  with_display {| transcript_text := "teh cats runs"; score_label := "";
                  errors_text := ""; style_text := ""; report_text := "" |}
               initial_world.
(** * Properties *)

(** ** Strings *)

Lemma append_nil_l (s : string) : "" +:+ s = s.
Proof. reflexivity. Qed.

Lemma append_cons (c : ascii) (s t : string) : String c s +:+ t = String c (s +:+ t).
Proof. reflexivity. Qed.

Lemma startswith_iff (sub s : string) :
  PyStr.startswith sub s = true ↔ ∃ behind, s = sub +:+ behind.
Proof.
  revert s. induction sub as [|a sub IH]; intros s; simpl.
  - split; [intros _; by exists s | done].
  - destruct s as [|b s].
    + split; [done | intros [behind H]; discriminate H].
    + rewrite andb_true_iff, Ascii.eqb_eq, IH. split.
      * intros [-> [behind ->]]. by exists behind.
      * intros [behind H]. rewrite append_cons in H. injection H as -> ->. eauto.
Qed.

Lemma contains_iff (sub s : string) :
  PyStr.contains sub s = true ↔ is_substring sub s.
Proof.
  unfold is_substring. induction s as [|c s IH]; simpl.
  - rewrite orb_false_r, startswith_iff. split.
    + intros [behind H]. by exists "", behind.
    + intros [[|c before] [behind H]]; [by exists behind | discriminate H].
  - rewrite orb_true_iff, startswith_iff, IH. split.
    + intros [[behind H] | (before & behind & H)].
      * by exists "", behind.
      * exists (String c before), behind. by rewrite append_cons, H.
    + intros [[|c' before] [behind H]].
      * left. by exists behind.
      * right. rewrite append_cons in H. injection H as -> ->. eauto.
Qed.

Lemma contains_false_iff (sub s : string) :
  PyStr.contains sub s = false ↔ ¬ is_substring sub s.
Proof. rewrite <- contains_iff. by destruct (PyStr.contains sub s). Qed.

Lemma length_append (s t : string) :
  String.length (s +:+ t) = (String.length s + String.length t)%nat.
Proof. induction s as [|c s IH]; [done|]. rewrite append_cons. simpl. by rewrite IH. Qed.

(** ** The error classifier *)

Lemma category_name_inj (c1 c2 : category) :
  category_name c1 = category_name c2 → c1 = c2.
Proof. by destruct c1, c2. Qed.

(** C2, as stated, fails: the keywords are looked up in the lowercased
    message, so a capitalised "Spelling" makes the match a typo, where the
    rules read on the message as it is give PUNCTUATION. *)
Lemma classify_error_not_as_stated :
  classify_as_stated capitalised_match = PUNCTUATION ∧
  PyStr.contains "punctuation" (message capitalised_match) = true ∧
  PyStr.contains "style" (message capitalised_match) = true ∧
  classify_error capitalised_match = TYPOS.
Proof. by vm_compute. Qed.

(** C2, amended: the classifier is total, returns one of the four
    categories, and applies the rules in order on the lowercased message:
    TYPOS exactly when the rule id is the spelling rule or the text contains
    "spelling"; PUNCTUATION exactly when that fails and the text contains
    "punctuation"; STYLE exactly when both fail and the text contains "style"
    or "readability"; GRAMMAR otherwise. A text with both the punctuation and
    the style keyword is never STYLE, and is PUNCTUATION unless the spelling
    rule applies. *)
Theorem classify_error_ordered (m : IssueMatch) :
  let text := PyStr.lower (message m) in
  let spelling := ruleId m = "MORFOLOGIK_RULE_EN_US" ∨ is_substring "spelling" text in
  let punctuation := is_substring "punctuation" text in
  let style := is_substring "style" text ∨ is_substring "readability" text in
  category_name (classify_error m) ∈ ["GRAMMAR"; "TYPOS"; "PUNCTUATION"; "STYLE"] ∧
  (classify_error m = TYPOS ↔ spelling) ∧
  (classify_error m = PUNCTUATION ↔ ¬ spelling ∧ punctuation) ∧
  (classify_error m = STYLE ↔ ¬ spelling ∧ ¬ punctuation ∧ style) ∧
  (classify_error m = GRAMMAR ↔ ¬ spelling ∧ ¬ punctuation ∧ ¬ style) ∧
  (punctuation → style →
   classify_error m ≠ STYLE ∧ (¬ spelling → classify_error m = PUNCTUATION)).
Proof.
  intros text spelling punctuation style.
  assert (Hsp : String.eqb (ruleId m) "MORFOLOGIK_RULE_EN_US"
                || PyStr.contains "spelling" text = true ↔ spelling).
  { unfold spelling. by rewrite orb_true_iff, String.eqb_eq, contains_iff. }
  assert (Hpu : PyStr.contains "punctuation" text = true ↔ punctuation).
  { apply contains_iff. }
  assert (Hst : PyStr.contains "style" text || PyStr.contains "readability" text = true
                ↔ style).
  { unfold style. by rewrite orb_true_iff, !contains_iff. }
  unfold classify_error. fold text.
  clearbody spelling punctuation style text.
  destruct (String.eqb (ruleId m) "MORFOLOGIK_RULE_EN_US"
            || PyStr.contains "spelling" text);
    [|destruct (PyStr.contains "punctuation" text);
      [|destruct (PyStr.contains "style" text
                  || PyStr.contains "readability" text)]].
  all: split; [cbn; repeat constructor|].
  all: intuition congruence.
Qed.

Lemma classify_error_ordered_witness :
  classify_error punctuation_style_match ≠ STYLE ∧
  classify_error punctuation_style_match = PUNCTUATION.
Proof.
  pose proof (classify_error_ordered punctuation_style_match) as (_ & Hty & _ & _ & _ & H).
  assert (Hp : is_substring "punctuation" (PyStr.lower (message punctuation_style_match))).
  { apply contains_iff. vm_compute. reflexivity. }
  assert (Hs : is_substring "style" (PyStr.lower (message punctuation_style_match))
               ∨ is_substring "readability" (PyStr.lower (message punctuation_style_match))).
  { left. apply contains_iff. vm_compute. reflexivity. }
  destruct (H Hp Hs) as [Hne Hpu]. split; [exact Hne|].
  apply Hpu. intros [Hrule | Hspell].
  - vm_compute in Hrule. discriminate Hrule.
  - apply contains_iff in Hspell. vm_compute in Hspell. discriminate Hspell.
Defined.

(** ** The scorer *)

Lemma breakdown_items (g t p s : Z) :
  map_to_list (breakdown g t p s)
  = [("GRAMMAR", g); ("STYLE", s); ("TYPOS", t); ("PUNCTUATION", p)].
Proof. vm_compute. reflexivity. Qed.

Lemma weighted_penalty_breakdown (g t p s : Z) :
  weighted_penalty (breakdown g t p s)
  = Ok (0 + 1 * inject_Z p + 2 * inject_Z t + (3 # 2) * inject_Z s + 3 * inject_Z g)%Q.
Proof.
  unfold weighted_penalty. rewrite map_fold_foldr, breakdown_items. reflexivity.
Qed.

Lemma breakdown_lookup (g t p s : Z) (k : string) :
  breakdown g t p s !! k =
  if decide (k = "GRAMMAR") then Some g
  else if decide (k = "TYPOS") then Some t
  else if decide (k = "PUNCTUATION") then Some p
  else if decide (k = "STYLE") then Some s
  else None.
Proof.
  unfold breakdown. repeat case_decide; simplify_map_eq; done.
Qed.

Lemma breakdown_dom (g t p s : Z) : dom (breakdown g t p s) = four_categories.
Proof. unfold breakdown, four_categories. rewrite !dom_insert_L, dom_singleton_L. set_solver. Qed.

Lemma breakdown_of_dom (eb : gmap string Z) :
  dom eb = four_categories →
  eb = breakdown (get eb "GRAMMAR" 0) (get eb "TYPOS" 0)
                 (get eb "PUNCTUATION" 0) (get eb "STYLE" 0).
Proof.
  intros Hdom. apply map_eq. intros k. rewrite breakdown_lookup. unfold get.
  repeat case_decide; subst.
  1-4: match goal with |- ?m !! ?k = _ =>
         assert (is_Some (m !! k)) as [n ->]; [|done] end;
       apply elem_of_dom; rewrite Hdom; unfold four_categories;
       rewrite !elem_of_union, !elem_of_singleton; tauto.
  apply not_elem_of_dom. rewrite Hdom. unfold four_categories.
  rewrite !elem_of_union, !elem_of_singleton. tauto.
Qed.

Lemma breakdown_insert (g t p s : Z) (c : category) (n : Z) :
  <[category_name c := n]> (breakdown g t p s) =
  match c with
  | GRAMMAR => breakdown n t p s
  | TYPOS => breakdown g n p s
  | PUNCTUATION => breakdown g t n s
  | STYLE => breakdown g t p n
  end.
Proof.
  apply map_eq. intros k. destruct c; simpl;
    rewrite lookup_insert, !breakdown_lookup; repeat case_decide; congruence.
Qed.

Lemma overall_score_breakdown (g t p s : Z) :
  ∃ v, overall_score (breakdown g t p s) = Ok v ∧
       (v == Qmax (100 - (3 * inject_Z g + 2 * inject_Z t + 1 * inject_Z p
                          + (3 # 2) * inject_Z s)) 0)%Q.
Proof.
  unfold overall_score. rewrite weighted_penalty_breakdown. cbn.
  eexists. split; [reflexivity|].
  unfold PyNum.max. destruct (Qlt_le_dec _ _) as [Hlt | Hle].
  - rewrite Q.max_r; [reflexivity|]. lra.
  - rewrite Q.max_l; [|lra]. ring.
Qed.

(** C1: on every breakdown with non-negative counts for the four
    categories the scorer returns, without an exception,
    max(100 - (3 GRAMMAR + 2 TYPOS + 1 PUNCTUATION + 1.5 STYLE), 0); the value
    lies in [0, 100], is 100 when all counts are zero, and is 92 on
    GRAMMAR 2, TYPOS 1, PUNCTUATION 0, STYLE 0. *)
Theorem scorer_formula (eb : gmap string Z) :
  dom eb = four_categories →
  (∀ k n, eb !! k = Some n → 0 ≤ n) →
  let G := inject_Z (get eb "GRAMMAR" 0) in
  let T := inject_Z (get eb "TYPOS" 0) in
  let P := inject_Z (get eb "PUNCTUATION" 0) in
  let S := inject_Z (get eb "STYLE" 0) in
  (∃ v, overall_score eb = Ok v ∧
        (v == Qmax (100 - (3 * G + 2 * T + 1 * P + (3 # 2) * S)) 0)%Q ∧
        (0 <= v)%Q ∧ (v <= 100)%Q ∧
        ((G == 0)%Q → (T == 0)%Q → (P == 0)%Q → (S == 0)%Q → (v == 100)%Q)) ∧
  (∃ v, overall_score {[ "GRAMMAR" := 2; "TYPOS" := 1; "PUNCTUATION" := 0; "STYLE" := 0 ]}
        = Ok v ∧ (v == 92)%Q).
Proof.
  intros Hdom Hnonneg G T P S. split.
  - assert (Hget : ∀ k, 0 ≤ get eb k 0).
    { intros k. unfold get. destruct (eb !! k) eqn:E; [eauto | done]. }
    pose proof (Hget "GRAMMAR") as HG. pose proof (Hget "TYPOS") as HT.
    pose proof (Hget "PUNCTUATION") as HP. pose proof (Hget "STYLE") as HS.
    rewrite Zle_Qle in HG, HT, HP, HS.
    change (inject_Z 0) with 0%Q in HG, HT, HP, HS.
    fold G in HG. fold T in HT. fold P in HP. fold S in HS.
    destruct (overall_score_breakdown (get eb "GRAMMAR" 0) (get eb "TYPOS" 0)
                (get eb "PUNCTUATION" 0) (get eb "STYLE" 0)) as (v & Hscore & Hv).
    rewrite <- (breakdown_of_dom eb Hdom) in Hscore.
    fold G T P S in Hv. clearbody G T P S.
    exists v. split; [done|]. split; [done|].
    rewrite Hv. repeat split.
    + apply Q.le_max_r.
    + apply Q.max_lub; lra.
    + intros -> -> -> ->. rewrite Q.max_l; [ring | lra].
  - destruct (overall_score_breakdown 2 1 0 0) as (v & Hv & Heq).
    exists v. split; [exact Hv|]. rewrite Heq. reflexivity.
Qed.

(** C5: raising the count of one category of a breakdown, the other three
    kept, never raises the score. *)
Theorem scorer_monotone (eb : gmap string Z) (c : category) (n n' : Z) :
  dom eb = four_categories →
  eb !! category_name c = Some n →
  n ≤ n' →
  ∃ v v', overall_score eb = Ok v ∧
          overall_score (<[category_name c := n']> eb) = Ok v' ∧
          (v' <= v)%Q.
Proof.
  intros Hdom Hc Hle. rewrite Zle_Qle in Hle.
  pose proof (breakdown_of_dom eb Hdom) as Heb.
  set (g := get eb "GRAMMAR" 0) in *. set (t := get eb "TYPOS" 0) in *.
  set (p := get eb "PUNCTUATION" 0) in *. set (s := get eb "STYLE" 0) in *.
  clearbody g t p s. subst eb. clear Hdom.
  rewrite breakdown_insert. rewrite breakdown_lookup in Hc.
  destruct (overall_score_breakdown g t p s) as (v & -> & Hv).
  destruct c; simpl in Hc; injection Hc as <-;
    match goal with |- context [overall_score (breakdown ?a ?b ?c ?d) = Ok _ ∧ _] =>
      destruct (overall_score_breakdown a b c d) as (v' & -> & Hv') end;
    exists v, v'; (split; [done|]); (split; [done|]);
    rewrite Hv, Hv'; apply Q.max_le_compat_r; lra.
Qed.

Lemma scorer_formula_witness :
  dom (breakdown 2 1 0 0) = four_categories ∧
  ∃ v, overall_score (breakdown 2 1 0 0) = Ok v ∧ (0 <= v)%Q ∧ (v <= 100)%Q.
Proof.
  split; [apply breakdown_dom|].
  destruct (scorer_formula (breakdown 2 1 0 0) (breakdown_dom 2 1 0 0))
    as [(v & Hv & _ & H0 & H100 & _) _].
  - intros k n. rewrite breakdown_lookup. repeat case_decide; intros [= <-]; lia.
  - exists v. auto.
Defined.

Lemma scorer_monotone_witness :
  breakdown 2 1 0 0 !! "TYPOS" = Some 1 ∧ 1 ≤ 4 ∧
  ∃ v v', overall_score (breakdown 2 1 0 0) = Ok v ∧
          overall_score (<["TYPOS" := 4]> (breakdown 2 1 0 0)) = Ok v' ∧
          (v' <= v)%Q.
Proof.
  split; [reflexivity|]. split; [lia|].
  apply (scorer_monotone (breakdown 2 1 0 0) TYPOS 1 4);
    [apply breakdown_dom | reflexivity | lia].
Defined.
(** ** Binary64: the sign of a quotient *)

Lemma shr_1_nonneg (mrs : shr_record) : 0 ≤ shr_m mrs → 0 ≤ shr_m (shr_1 mrs).
Proof.
  destruct mrs as [m r s]. simpl. destruct m as [|[p|p|]|[p|p|]]; simpl; lia.
Qed.

Lemma iter_pos_nonneg (p : positive) (mrs : shr_record) :
  0 ≤ shr_m mrs → 0 ≤ shr_m (SpecFloat.iter_pos shr_1 p mrs).
Proof.
  revert mrs. induction p as [p IH|p IH|]; intros mrs H; simpl.
  - apply IH, IH, shr_1_nonneg, H.
  - apply IH, IH, H.
  - apply shr_1_nonneg, H.
Qed.

Lemma shr_fexp_nonneg (m e : Z) (l : location) :
  0 ≤ m → 0 ≤ shr_m (shr_fexp B64.prec B64.emax m e l).1.
Proof.
  intros H. unfold shr_fexp, shr.
  assert (H0 : 0 ≤ shr_m (shr_record_of_loc m l)) by (by destruct l as [|[]]).
  destruct (fexp _ _ _ - e); simpl; [done| |done].
  by apply iter_pos_nonneg.
Qed.

Lemma round_nearest_even_nonneg (m : Z) (l : location) :
  0 ≤ m → 0 ≤ round_nearest_even m l.
Proof.
  intros H. destruct l as [|[]]; simpl; try done; [destruct (Z.even m)|]; lia.
Qed.

Lemma binary_round_aux_signed (s : bool) (m e : Z) (l : location) :
  0 ≤ m → B64.signed s (binary_round_aux B64.prec B64.emax s m e l).
Proof.
  intros H. unfold binary_round_aux.
  pose proof (shr_fexp_nonneg m e l H) as H1.
  destruct (shr_fexp B64.prec B64.emax m e l) as [mrs' e'] eqn:E1. simpl in H1.
  pose proof (shr_fexp_nonneg _ e' loc_Exact
                (round_nearest_even_nonneg _ (loc_of_shr_record mrs') H1)) as H2.
  destruct (shr_fexp B64.prec B64.emax (round_nearest_even _ _) e' loc_Exact)
    as [mrs'' e''] eqn:E2. simpl in H2.
  destruct (shr_m mrs'') as [|p|p]; simpl; [done| |lia].
  by destruct (e'' <=? B64.emax - B64.prec).
Qed.

Lemma of_Z_signed (z : Z) : 0 ≤ z → B64.signed false (B64.of_Z z).
Proof.
  intros H. unfold B64.of_Z, binary_normalize. destruct z as [|p|p]; [done| |lia].
  unfold binary_round. destruct (shl_align _ _ _) as [mz ez].
  by apply binary_round_aux_signed.
Qed.

Lemma div_finite_signed (sx sy : bool) (mx my : positive) (ex ey : Z) :
  B64.signed (xorb sx sy) (B64.div (S754_finite sx mx ex) (S754_finite sy my ey)).
Proof.
  unfold B64.div, SFdiv.
  destruct (SFdiv_core_binary _ _ _ _ _ _) as [[mz ez] lz] eqn:E.
  apply binary_round_aux_signed.
  unfold SFdiv_core_binary in E.
  set (m' := match _ with Z0 => Z.pos mx | Zpos _ => _ | Zneg _ => 0 end) in E.
  assert (Hm' : 0 ≤ m').
  { subst m'. destruct (_ - _ - _); [lia| |lia]. apply Z.shiftl_nonneg. lia. }
  pose proof (Z.div_pos m' (Z.pos my) Hm' eq_refl) as Hq.
  unfold Z.div in Hq. destruct (Z.div_eucl m' (Z.pos my)) as [q r].
  injection E as <- _ _. exact Hq.
Qed.

(** The quotient by a finite float has the sign of the signs. *)
Lemma div_signed (sx sy : bool) (x : B64.float) (my : positive) (ey : Z) :
  B64.signed sx x → B64.signed (xorb sx sy) (B64.div x (S754_finite sy my ey)).
Proof.
  destruct x as [s|s| |s mx ex]; simpl; try done; intros <-; try done.
  apply div_finite_signed.
Qed.

Lemma of_Q_signed (q : Q) : (0 < q)%Q → B64.signed false (B64.of_Q q).
Proof.
  intros Hq. unfold B64.of_Q. destruct q as [[|n|n] d]; simpl.
  - done.
  - apply (div_finite_signed false false).
  - exfalso. revert Hq. unfold Qlt. simpl. lia.
Qed.

Lemma sixty : B64.of_Z 60 = S754_finite false 8444249301319680 (-47).
Proof. reflexivity. Qed.

(** The divisor of line 80 is a float of positive sign. *)
Lemma minutes_signed (d : Q) :
  (0 < d)%Q → B64.signed false (B64.div (B64.of_Q d) (B64.of_Z 60)).
Proof.
  intros Hd. rewrite sixty. apply (div_signed false false). by apply of_Q_signed.
Qed.
(** ** The metrics computer *)


Lemma round_half_even_nonneg (x : Q) : (0 <= x)%Q → 0 ≤ PyNum.round_half_even x.
Proof.
  intros Hx. unfold PyNum.round_half_even.
  assert (Hf : 0 ≤ Qfloor x).
  { change 0 with (Qfloor 0). by apply Qfloor_resp_le. }
  destruct (_ ?= _)%Q; [destruct (Z.even _)| |]; lia.
Qed.


Lemma to_Q_nonneg (m : positive) (e : Z) (v : Q) :
  B64.to_Q (S754_finite false m e) = Some v → (0 <= v)%Q.
Proof.
  simpl. intros [= <-]. destruct e as [|p|p]; unfold Qle; simpl; lia.
Qed.

Lemma round_signed (x : B64.float) (ndigits : nat) :
  B64.signed false x → B64.signed false (PyNum.round x ndigits).
Proof.
  unfold PyNum.round. destruct x as [s|s| |s m e]; try done. intros Hs.
  simpl in Hs. subst s.
  destruct (B64.to_Q (S754_finite false m e)) as [v|] eqn:Ev; [|done].
  apply to_Q_nonneg in Ev.
  set (p := Z.to_pos (10 ^ Z.of_nat ndigits)).
  assert (Hk : 0 ≤ PyNum.round_half_even (v * inject_Z (Z.pos p))).
  { apply round_half_even_nonneg. apply Qmult_le_0_compat; [done|].
    unfold Qle. simpl. lia. }
  destruct (PyNum.round_half_even _) as [|k|k]; [done| |lia].
  apply of_Q_signed. unfold Qlt. simpl. lia.
Qed.

Lemma float_of_int_signed (n : Z) (count : B64.float) :
  0 ≤ n → PyNum.float_of_int n = Ok count →
  B64.signed false count ∧ ∀ s, count ≠ S754_infinity s.
Proof.
  intros Hn. unfold PyNum.float_of_int.
  pose proof (of_Z_signed n Hn) as Hs.
  destruct (B64.of_Z n); intros [= <-]; done.
Qed.

(** The rate of line 80: a count over a non-zero number of minutes. *)
Lemma rate_signed (count minutes : B64.float) :
  B64.signed false count → (∀ s, count ≠ S754_infinity s) →
  B64.signed false minutes → B64.is_zero minutes = false →
  B64.signed false (B64.div count minutes).
Proof.
  intros Hc Hfin Hm Hz.
  destruct minutes as [sm|sm| |sm mm em]; try done; simpl in Hm; subst sm.
  - destruct count as [sc|sc| |sc mc ec]; try done; simpl in Hc; subst sc; [done| |done].
    by destruct (Hfin false).
  - by apply (div_signed false false).
Qed.

(** What line 80 gives above the guard. *)
Lemma words_per_minute_positive (n : Z) (audio_duration : Q) (count : B64.float) :
  (0 < audio_duration)%Q →
  B64.is_zero (B64.div (B64.of_Q audio_duration) (B64.of_Z 60)) = false →
  PyNum.float_of_int n = Ok count →
  words_per_minute PyNum.truediv n audio_duration =
  Ok (PyNum.Float
        (PyNum.round (B64.div count (B64.div (B64.of_Q audio_duration) (B64.of_Z 60))) 2)).
Proof.
  intros Hd Hz Hcount. unfold words_per_minute.
  destruct (Qlt_le_dec 0 audio_duration) as [_|Hneg]; [|lra].
  unfold PyNum.truediv at 2. change (B64.is_zero (B64.of_Z 60)) with false.
  cbn [mbind result_bind]. rewrite Hcount. cbn [mbind result_bind].
  unfold PyNum.truediv. by rewrite Hz.
Qed.

(** What line 80 gives is never negative and never a NaN. *)
Lemma words_per_minute_nonnegative (n : Z) (audio_duration : Q) (rate : PyNum.number) :
  0 ≤ n → words_per_minute PyNum.truediv n audio_duration = Ok rate → nonnegative rate.
Proof.
  intros Hn. unfold words_per_minute.
  destruct (Qlt_le_dec 0 audio_duration) as [Hd|_]; [|by intros [= <-]].
  pose proof (minutes_signed audio_duration Hd) as Hm.
  unfold PyNum.truediv at 2. change (B64.is_zero (B64.of_Z 60)) with false.
  cbn [mbind result_bind].
  destruct (PyNum.float_of_int n) as [count|] eqn:Hcount; [|done].
  destruct (float_of_int_signed n count Hn Hcount) as [Hc Hfin].
  cbn [mbind result_bind]. unfold PyNum.truediv.
  destruct (B64.is_zero _) eqn:Hz; [done|]. intros [= <-]. simpl.
  by apply round_signed, rate_signed.
Qed.

(** Without words line 80 gives 0, whenever it gives anything. *)
Lemma words_per_minute_no_words (audio_duration : Q) (rate : PyNum.number) :
  words_per_minute PyNum.truediv 0 audio_duration = Ok rate → has_value rate 0.
Proof.
  unfold words_per_minute.
  destruct (Qlt_le_dec 0 audio_duration) as [Hd|_].
  2:{ intros [= <-]. by exists 0%Q. }
  pose proof (minutes_signed audio_duration Hd) as Hm.
  unfold PyNum.truediv at 2. change (B64.is_zero (B64.of_Z 60)) with false.
  cbn [mbind result_bind]. change (PyNum.float_of_int 0) with (Ok (S754_zero false)).
  cbn [mbind result_bind]. unfold PyNum.truediv.
  destruct (B64.div (B64.of_Q audio_duration) (B64.of_Z 60)) as [s|s| |s m e];
    try done; intros [= <-]; by exists 0%Q.
Qed.

Lemma compute_metrics_run (transcript : string) (audio_duration : Q)
    (error_breakdown : gmap string Z) (overall_score : Q) (rate : PyNum.number) :
  speaking_rate transcript audio_duration = Ok rate →
  compute_metrics transcript audio_duration error_breakdown overall_score =
  Ok {| score := overall_score;
        word_count := Z.of_nat (length (PyStr.split transcript));
        wpm := rate;
        filler_count :=
          foldl (fun total filler =>
                   total + Z.of_nat (PyStr.count filler (PyStr.lower transcript)))
                0 FILLER_WORDS;
        errors := {[ "GRAMMAR" := get error_breakdown "GRAMMAR" 0;
                     "TYPOS" := get error_breakdown "TYPOS" 0;
                     "PUNCTUATION" := get error_breakdown "PUNCTUATION" 0 ]} |}.
Proof. unfold speaking_rate, compute_metrics. by intros ->. Qed.

Lemma compute_metrics_raise (transcript : string) (audio_duration : Q)
    (error_breakdown : gmap string Z) (overall_score : Q) (e : exn) :
  speaking_rate transcript audio_duration = Raise e →
  compute_metrics transcript audio_duration error_breakdown overall_score = Raise e.
Proof. unfold speaking_rate, compute_metrics. by intros ->. Qed.

(** The metrics computer returns exactly when line 80 has a value. *)
Lemma compute_metrics_defined (transcript : string) (audio_duration : Q)
    (error_breakdown : gmap string Z) (overall_score : Q) :
  (∃ m, compute_metrics transcript audio_duration error_breakdown overall_score = Ok m)
  ↔ rate_defined transcript audio_duration.
Proof.
  unfold rate_defined. split.
  - intros [m Hm]. destruct (speaking_rate transcript audio_duration) as [rate|e] eqn:E.
    + by exists rate.
    + by rewrite (compute_metrics_raise _ _ _ _ _ E) in Hm.
  - intros [rate Hrate]. rewrite (compute_metrics_run _ _ _ _ _ Hrate). by eexists.
Qed.

(** Line 80 has a value below the guard, and above it when the minutes are
    not zero and the word count is not beyond the floats. *)
Lemma rate_defined_iff (transcript : string) (audio_duration : Q) :
  rate_defined transcript audio_duration ↔
  (audio_duration <= 0)%Q ∨
  (0 < audio_duration)%Q ∧
  B64.is_zero (B64.div (B64.of_Q audio_duration) (B64.of_Z 60)) = false ∧
  ∃ count, PyNum.float_of_int (Z.of_nat (length (PyStr.split transcript))) = Ok count.
Proof.
  unfold rate_defined, speaking_rate. split.
  - intros [rate Hrate]. unfold words_per_minute in Hrate.
    destruct (Qlt_le_dec 0 audio_duration) as [Hd|Hd]; [right | by left].
    split; [done|]. unfold PyNum.truediv at 2 in Hrate.
    change (B64.is_zero (B64.of_Z 60)) with false in Hrate. cbn [mbind result_bind] in Hrate.
    destruct (PyNum.float_of_int _) as [count|]; [|done]. cbn [mbind result_bind] in Hrate.
    unfold PyNum.truediv in Hrate. destruct (B64.is_zero _); [done|]. split; [done | by eexists].
  - intros [Hd | (Hd & Hz & count & Hcount)].
    + exists (PyNum.Int 0). unfold words_per_minute.
      destruct (Qlt_le_dec 0 audio_duration); [lra | done].
    + eexists. by apply words_per_minute_positive.
Qed.


Lemma count_from_skip (sub t r : string) :
  PyStr.count_from (String.length t) sub (t +:+ r) = PyStr.count_from 0 sub r.
Proof.
  induction t as [|b t IH]; [done|]. rewrite append_cons. simpl. exact IH.
Qed.

Lemma occurrences_skip (c : ascii) (rest t r : string) :
  occurs_in c t = false →
  occurrences (String c rest) (t +:+ r) = occurrences (String c rest) r.
Proof.
  induction t as [|b t IH]; [done|]. simpl. intros [Hb Ht]%orb_false_iff.
  rewrite ?append_cons. cbn [occurrences PyStr.startswith]. rewrite Hb. simpl.
  by apply IH.
Qed.

Lemma count_from_occurrences (sub s : string) :
  first_char_unique sub = true →
  PyStr.count_from 0 sub s = occurrences sub s.
Proof.
  destruct sub as [|c rest]; [done|]. simpl. intros Hc%negb_true_iff.
  remember (String.length s) as n eqn:Hn. revert s Hn.
  induction n as [n IH] using lt_wf_ind. intros s ->.
  destruct s as [|b s]; [done|].
  cbn [PyStr.count_from occurrences].
  destruct (PyStr.startswith (String c rest) (String b s)) eqn:E.
  - apply startswith_iff in E as [behind E]. rewrite append_cons in E.
    injection E as -> ->.
    replace (String.length (String c rest) - 1)%nat with (String.length rest)
      by (simpl; lia).
    rewrite count_from_skip, occurrences_skip by done.
    f_equal. eapply IH; [|reflexivity]. simpl.
    rewrite length_append. lia.
  - simpl. eapply IH; [|reflexivity]. simpl. lia.
Qed.

Lemma count_occurrences (sub s : string) :
  first_char_unique sub = true → PyStr.count sub s = occurrences sub s.
Proof.
  intros H. destruct sub; [done|]. by apply count_from_occurrences.
Qed.

(** C4: the filler count of the metrics is the sum, over the lexicon "um",
    "uh", "like", "you know", "ah", "er", of the raw substring occurrence
    counts in the lowercased transcript, for every transcript and every
    duration at which the speaking rate of line 80 has a value;
    "um so like I went" over 10 seconds has 5 words, 30 words per minute and
    2 fillers. *)
Theorem filler_count_occurrences (transcript : string) (audio_duration : Q)
    (error_breakdown : gmap string Z) (overall_score : Q) :
  (rate_defined transcript audio_duration →
     ∃ m, compute_metrics transcript audio_duration error_breakdown overall_score = Ok m ∧
          filler_count m =
          Z.of_nat (sum_list ((fun filler => occurrences filler (PyStr.lower transcript))
                                <$> ["um"; "uh"; "like"; "you know"; "ah"; "er"]))) ∧
  (∃ m, compute_metrics "um so like I went" 10 error_breakdown overall_score = Ok m ∧
        word_count m = 5 ∧ has_value (wpm m) 30 ∧ filler_count m = 2).
Proof.
  split.
  - intros [rate Hrate]. rewrite (compute_metrics_run _ _ _ _ _ Hrate).
    eexists. split; [reflexivity|]. cbn.
    rewrite !count_from_occurrences by reflexivity. lia.
  - rewrite (compute_metrics_run _ _ _ _ (PyNum.Float (B64.of_Z 30))) by reflexivity.
    eexists. split; [reflexivity|]. cbn [word_count wpm filler_count].
    split; [reflexivity|]. split; [|reflexivity].
    eexists. split; reflexivity.
Qed.

Lemma get_default (eb : gmap string Z) (k : string) : get eb k 0 = default 0 (eb !! k).
Proof. unfold get. by destruct (eb !! k). Qed.

(** C6: the error summary of the metrics has exactly the keys GRAMMAR,
    TYPOS and PUNCTUATION, each with the count of the breakdown or 0 when the
    breakdown has none; it has no STYLE. This holds of the metrics of every
    transcript, breakdown and score, at every duration at which the speaking
    rate of line 80 has a value. *)
Theorem errors_summary_three_keys (transcript : string) (audio_duration : Q)
    (error_breakdown : gmap string Z) (overall_score : Q) :
  rate_defined transcript audio_duration →
  ∃ m, compute_metrics transcript audio_duration error_breakdown overall_score = Ok m ∧
       dom (errors m) = ({[ "GRAMMAR"; "TYPOS"; "PUNCTUATION" ]} : gset string) ∧
       errors m !! "GRAMMAR" = Some (default 0 (error_breakdown !! "GRAMMAR")) ∧
       errors m !! "TYPOS" = Some (default 0 (error_breakdown !! "TYPOS")) ∧
       errors m !! "PUNCTUATION" = Some (default 0 (error_breakdown !! "PUNCTUATION")) ∧
       errors m !! "STYLE" = None ∧
       (∀ k, is_Some (errors m !! k) ↔ k = "GRAMMAR" ∨ k = "TYPOS" ∨ k = "PUNCTUATION").
Proof.
  intros [rate Hrate]. rewrite (compute_metrics_run _ _ _ _ _ Hrate).
  eexists. split; [reflexivity|]. cbn [errors]. rewrite !get_default.
  split; [|split; [|split; [|split; [|split]]]].
  - rewrite !dom_insert_L, dom_singleton_L. rewrite (assoc_L (∪)). reflexivity.
  - by simplify_map_eq.
  - by simplify_map_eq.
  - by simplify_map_eq.
  - by simplify_map_eq.
  - intros k. rewrite !lookup_insert. repeat case_decide; subst.
    + split; [auto | by eexists].
    + split; [auto | by eexists].
    + rewrite lookup_singleton. case_decide; subst.
      * split; [auto | by eexists].
      * split; [by intros [? [=]] | intros [?|[?|?]]; congruence].
Qed.

(** ** The feedback generator *)

Section FromKeys.
Context {A : Type} `{EqDecision A}.

Lemma fromkeys_snoc (l : list A) (x : A) :
  fromkeys (l ++ [x]) =
  if decide (x ∈ fromkeys l) then fromkeys l else fromkeys l ++ [x].
Proof. unfold fromkeys. by rewrite foldl_app. Qed.

Lemma fromkeys_elem_of (l : list A) (x : A) : x ∈ fromkeys l ↔ x ∈ l.
Proof.
  induction l as [|y l IH] using rev_ind; [done|].
  rewrite fromkeys_snoc. case_decide as Hy.
  - rewrite elem_of_app, list_elem_of_singleton, IH. split; [tauto|].
    intros [? | ->]; [done | by apply IH].
  - by rewrite !elem_of_app, IH.
Qed.

Lemma fromkeys_NoDup (l : list A) : NoDup (fromkeys l).
Proof.
  induction l as [|y l IH] using rev_ind; [constructor|].
  rewrite fromkeys_snoc. case_decide as Hy; [done|].
  apply NoDup_app. split; [done|]. split; [|apply NoDup_singleton].
  intros x Hx ->%list_elem_of_singleton. done.
Qed.

(** Keys stand in the order of their first occurrence: a key that stands
    before another one occurs in the list before the other one does. *)
Lemma fromkeys_first_occurrence (l : list A) (i j : nat) (x y : A) :
  fromkeys l !! i = Some x → fromkeys l !! j = Some y → (i < j)%nat →
  ∃ l1 l2, l = l1 ++ x :: l2 ∧ y ∉ l1.
Proof.
  revert i j x y. induction l as [|z l IH] using rev_ind; intros i j x y; [done|].
  rewrite fromkeys_snoc. case_decide as Hz.
  - intros Hi Hj Hij. destruct (IH i j x y Hi Hj Hij) as (l1 & l2 & -> & Hy).
    exists l1, (l2 ++ [z]). by rewrite <- app_assoc.
  - intros Hi Hj Hij.
    destruct (decide (j < length (fromkeys l))%nat) as [Hlt | Hge].
    + rewrite lookup_app_l in Hi, Hj by lia.
      destruct (IH i j x y Hi Hj Hij) as (l1 & l2 & -> & Hy).
      exists l1, (l2 ++ [z]). by rewrite <- app_assoc.
    + assert (j = length (fromkeys l)) as ->.
      { apply lookup_lt_Some in Hj. rewrite length_app in Hj. simpl in Hj. lia. }
      rewrite lookup_app_l in Hi by lia.
      rewrite list_lookup_middle in Hj by done. injection Hj as <-.
      apply list_elem_of_lookup_2 in Hi. rewrite fromkeys_elem_of in Hi.
      apply list_elem_of_split in Hi as (l1 & l2 & ->).
      exists l1, (l2 ++ [z]). split; [by rewrite <- app_assoc|].
      intros Hin. apply Hz. rewrite fromkeys_elem_of, elem_of_app. by left.
Qed.

End FromKeys.

Lemma fromkeys_fmap {A B} `{EqDecision A} `{EqDecision B} (f : A → B) `{!Inj (=) (=) f} (l : list A) :
  fromkeys (f <$> l) = f <$> fromkeys l.
Proof.
  induction l as [|y l IH] using rev_ind; [done|].
  rewrite fmap_app. change (f <$> [y]) with [f y]. rewrite !fromkeys_snoc, IH.
  destruct (decide (y ∈ fromkeys l)) as [Hy | Hy].
  - rewrite decide_True; [done|]. by apply list_elem_of_fmap_2.
  - rewrite decide_False; [by rewrite fmap_app|].
    intros (y' & Heq & Hy')%list_elem_of_fmap. apply (inj f) in Heq. by subst.
Qed.


Lemma suggestion_inj : Inj (=) (=) suggestion.
Proof. intros c1 c2. by destruct c1, c2. Qed.

Lemma feedback_step_observed (suggestions : list string) (detail : string) :
  feedback_step suggestions detail = suggestions ++ (suggestion <$> observed_in detail).
Proof.
  unfold feedback_step, observed_in. rewrite !filter_cons, filter_nil. simpl.
  destruct (PyStr.contains "Category: TYPOS" detail);
    destruct (PyStr.contains "Category: GRAMMAR" detail);
    destruct (PyStr.contains "Category: PUNCTUATION" detail);
    destruct (PyStr.contains "Category: STYLE" detail);
    repeat case_decide; try done; simpl;
    rewrite <- ?app_assoc, ?app_nil_r; reflexivity.
Qed.

Lemma feedback_loop_observations (suggestions : list string) (error_details : list string) :
  foldl feedback_step suggestions error_details
  = suggestions ++ (suggestion <$> observations error_details).
Proof.
  revert suggestions. induction error_details as [|d l IH]; intros suggestions; simpl.
  - by rewrite app_nil_r.
  - rewrite IH, feedback_step_observed. unfold observations. simpl.
    by rewrite fmap_app, app_assoc.
Qed.

Lemma observations_elem_of (error_details : list string) (c : category) :
  c ∈ observations error_details ↔
  ∃ d, d ∈ error_details ∧ is_substring (tag c) d.
Proof.
  unfold observations. rewrite list_elem_of_bind. unfold observed_in.
  split; intros (d & H1 & H2); exists d.
  - apply list_elem_of_filter in H1 as [H1 _]. split; [done|]. by apply contains_iff.
  - split; [|done]. apply list_elem_of_filter. split; [by apply contains_iff|].
    destruct c; set_solver.
Qed.

(** C7: the feedback is the fixed sentence when no detail shows a category
    tag, as on the empty list, and else the suggestions of the categories
    observed, joined by spaces: each category observed once, none twice, in
    the order of their first observation. *)
Theorem feedback_deduplicated (text : string) (error_details : list string) :
  ∃ cats : list category,
    contextual_language_feedback text error_details =
      match cats with
      | [] => NO_FEEDBACK
      | _ :: _ => PyStr.join " " (suggestion <$> cats)
      end ∧
    NoDup cats ∧ NoDup (suggestion <$> cats) ∧
    (∀ c, c ∈ cats ↔ ∃ d, d ∈ error_details ∧ is_substring (tag c) d) ∧
    (∀ i j ci cj, cats !! i = Some ci → cats !! j = Some cj → (i < j)%nat →
       ∃ l1 l2, observations error_details = l1 ++ ci :: l2 ∧ cj ∉ l1) ∧
    ((∀ c d, d ∈ error_details → ¬ is_substring (tag c) d) →
       contextual_language_feedback text error_details = NO_FEEDBACK) ∧
    contextual_language_feedback text [] = NO_FEEDBACK.
Proof.
  pose proof suggestion_inj as Hinj.
  set (cats := fromkeys (observations error_details)).
  assert (Hfeedback : contextual_language_feedback text error_details =
            match cats with
            | [] => NO_FEEDBACK
            | _ :: _ => PyStr.join " " (suggestion <$> cats)
            end).
  { unfold contextual_language_feedback.
    rewrite feedback_loop_observations, app_nil_l, fromkeys_fmap by apply _.
    fold cats. by destruct cats. }
  assert (Hin : ∀ c, c ∈ cats ↔ ∃ d, d ∈ error_details ∧ is_substring (tag c) d).
  { intros c. unfold cats. by rewrite fromkeys_elem_of, observations_elem_of. }
  exists cats. split; [exact Hfeedback|]. split; [apply fromkeys_NoDup|].
  split; [apply NoDup_fmap; [apply _ | apply fromkeys_NoDup]|].
  split; [exact Hin|]. split; [apply fromkeys_first_occurrence|]. split; [|done].
  intros Hnone. rewrite Hfeedback. destruct cats as [|c cats']; [done|].
  exfalso. destruct (Hin c) as [(d & Hd & Htag) _]; [by left|]. by eapply Hnone.
Qed.

(** ** The grammar-check step *)

Lemma classified_cons (c : category) (m : IssueMatch) (matches : list IssueMatch) :
  classified c (m :: matches)
  = (if decide (classify_error m = c) then 1 else 0) + classified c matches.
Proof.
  unfold classified. rewrite filter_cons. case_decide; simpl length; lia.
Qed.

Lemma classified_total (matches : list IssueMatch) :
  classified GRAMMAR matches + classified TYPOS matches
  + classified PUNCTUATION matches + classified STYLE matches
  = Z.of_nat (length matches).
Proof.
  induction matches as [|m matches IH]; [done|].
  rewrite !classified_cons. simpl length.
  destruct (classify_error m); repeat case_decide; try done; lia.
Qed.

Lemma getitem_breakdown (g t p s : Z) (c : category) :
  getitem (breakdown g t p s) (category_name c)
  = Ok match c with GRAMMAR => g | TYPOS => t | PUNCTUATION => p | STYLE => s end.
Proof. unfold getitem. rewrite breakdown_lookup. by destruct c. Qed.

Lemma check_loop_counts (matches : list IssueMatch) (error_details : list string)
    (g t p s : Z) :
  check_loop matches error_details (breakdown g t p s)
  = Ok (error_details
          ++ ((fun m => error_info m (category_name (classify_error m))) <$> matches),
        breakdown (g + classified GRAMMAR matches) (t + classified TYPOS matches)
                  (p + classified PUNCTUATION matches) (s + classified STYLE matches)).
Proof.
  revert error_details g t p s.
  induction matches as [|m matches IH]; intros error_details g t p s.
  - simpl. unfold classified. simpl. by rewrite app_nil_r, !Z.add_0_r.
  - cbn [check_loop]. rewrite getitem_breakdown. cbn [mbind result_bind].
    rewrite breakdown_insert, !classified_cons.
    destruct (classify_error m) eqn:E; rewrite IH; repeat case_decide; try done;
      rewrite fmap_cons, E, <- app_assoc; do 2 f_equal; f_equal; lia.
Qed.

Section CheckGrammar.
Variable tools : Tools.

(** C9: the grammar-check step returns, and its total is the number of
    matches and the sum of the four counts of its breakdown; each count is
    the number of matches the classifier puts in that category. *)
Theorem check_grammar_total (text : string) :
  ∃ overall_score error_details error_breakdown total_errors,
    check_grammar tools text
      = Ok (overall_score, error_details, error_breakdown, total_errors) ∧
    total_errors = Z.of_nat (length (tool_check tools text)) ∧
    dom error_breakdown = four_categories ∧
    (∀ c, error_breakdown !! category_name c = Some (classified c (tool_check tools text))) ∧
    get error_breakdown "GRAMMAR" 0 + get error_breakdown "TYPOS" 0
      + get error_breakdown "PUNCTUATION" 0 + get error_breakdown "STYLE" 0
      = total_errors.
Proof.
  unfold check_grammar.
  change ({[ "GRAMMAR" := 0; "TYPOS" := 0; "PUNCTUATION" := 0; "STYLE" := 0 ]}
            : gmap string Z) with (breakdown 0 0 0 0).
  rewrite check_loop_counts. cbn [mbind result_bind]. rewrite !Z.add_0_l.
  set (matches := tool_check tools text).
  destruct (overall_score_breakdown (classified GRAMMAR matches) (classified TYPOS matches)
              (classified PUNCTUATION matches) (classified STYLE matches))
    as (v & -> & _).
  cbn. eexists _, _, _, _. split; [reflexivity|]. split; [done|].
  split; [apply breakdown_dom|]. split.
  - intros c. rewrite breakdown_lookup. by destruct c.
  - unfold get. rewrite !breakdown_lookup. simpl. apply classified_total.
Qed.
End CheckGrammar.

(** ** The controllers *)

Section Preserves.
Context (P : World → Prop).

Lemma preserves_ret {A} (a : A) : preserves P (mret a).
Proof. by intros w. Qed.

Lemma preserves_bind {A B} (m : M A) (f : A → M B) :
  preserves P m → (∀ a, preserves P (f a)) → preserves P (m ≫= f).
Proof.
  intros Hm Hf w Hw. specialize (Hm w Hw). unfold mbind, M_bind.
  destruct (m w) as [[a | e] w']; [by apply Hf | done].
Qed.

Lemma preserves_try_except {A} (body : M A) (handler : exn → M A) :
  preserves P body → (∀ e, preserves P (handler e)) →
  preserves P (try_except body handler).
Proof.
  intros Hm Hh w Hw. specialize (Hm w Hw). unfold try_except.
  destruct (body w) as [[a | e] w']; [done | by apply Hh].
Qed.

Lemma preserves_modify (f : World → World) :
  (∀ w, P w → P (f w)) → preserves P (modify f).
Proof. intros Hf w Hw. by apply Hf. Qed.

Lemma preserves_gets {A} (f : World → A) : preserves P (gets f).
Proof. by intros w. Qed.

Lemma preserves_lift {A} (r : result A) : preserves P (lift r).
Proof. by intros w. Qed.

Lemma preserves_external {A} (e : event) (answer : result A) :
  (∀ w, P w → P (with_event e w)) → preserves P (external e answer).
Proof. intros He w Hw. by apply He. Qed.
End Preserves.

Lemma bind_modify {B} (f : World → World) (k : unit → M B) (w : World) :
  (modify f ≫= k) w = k tt (f w).
Proof. reflexivity. Qed.

Lemma bind_run {A B} (m : M A) (k : A → M B) (w : World) :
  (m ≫= k) w =
  match m w with
  | (Ok a, w') => k a w'
  | (Raise e, w') => (Raise e, w')
  end.
Proof. reflexivity. Qed.

Lemma try_external_default {A} (e : event) (answer : result A) (default : A) (w : World) :
  try_except (external e answer) (fun _ => mret default) w
  = (Ok match answer with Ok a => a | Raise _ => default end, with_event e w).
Proof. unfold try_except, external. by destruct answer. Qed.

Lemma started_about_recorder : about_recorder started.
Proof. intros w w' H. unfold started. by rewrite H. Qed.

Lemma has_start_time_about_recorder : about_recorder has_start_time.
Proof. intros w w' H. unfold has_start_time. by rewrite H. Qed.

(** Walks through a controller, leaving the assignments to look at. *)
Ltac preserve :=
  repeat first
    [ match goal with
      | |- preserves _ (match ?x with _ => _ end) => destruct x
      end
    | apply preserves_ret | apply preserves_gets | apply preserves_lift
    | apply preserves_bind; [|intros ?]
    | apply preserves_try_except; [|intros ?]
    | apply preserves_external; intros ? ?
    | apply preserves_modify; intros ? ?
    | progress unfold showerror, clear_inline_errors ].

Ltac same_recorder HP :=
  try (eapply HP; [|eassumption]; reflexivity).

Section Controllers.
Variable tools : Tools.

Lemma transcribe_audio_preserves (P : World → Prop) env file_path :
  about_recorder P → preserves P (transcribe_audio env file_path).
Proof. intros HP. unfold transcribe_audio. preserve; same_recorder HP. Qed.

Lemma analyse_preserves (P : World → Prop) transcript audio_duration :
  about_recorder P → preserves P (analyse tools transcript audio_duration).
Proof. intros HP. unfold analyse. preserve; same_recorder HP. Qed.

Lemma show_analysis_preserves (P : World → Prop) transcript a :
  about_recorder P → preserves P (show_analysis tools transcript a).
Proof. intros HP. unfold show_analysis. preserve; same_recorder HP. Qed.

Lemma process_file_preserves (P : World → Prop) env :
  about_recorder P → preserves P (process_file tools env).
Proof.
  intros HP. unfold process_file. preserve; same_recorder HP.
Qed.

Lemma audio_callback_started indata : preserves started (audio_callback indata).
Proof. unfold audio_callback. preserve. done. Qed.

Lemma update_timer_has_start_time env : preserves has_start_time (update_timer env).
Proof.
  unfold update_timer. preserve; same_recorder has_start_time_about_recorder.
  by eexists.
Qed.

Lemma update_timer_started env : preserves started (update_timer env).
Proof.
  unfold update_timer. preserve; same_recorder started_about_recorder.
  intros _. by eexists.
Qed.

Lemma start_recording_started env w : started (start_recording env w).2.
Proof.
  assert (H : ∀ w', has_start_time w' → started w') by (by intros w' H _).
  apply H. unfold start_recording. rewrite bind_modify.
  match goal with |- has_start_time (?m ?w0).2 =>
    cut (preserves has_start_time m); [intros Hp; apply Hp; by eexists|] end.
  preserve; same_recorder has_start_time_about_recorder; try done; by eexists.
Qed.

Lemma stop_recording_started env : preserves started (stop_recording tools env).
Proof.
  unfold stop_recording. preserve; same_recorder started_about_recorder.
  all: try (by intros [? [=]]).
  all: done.
Qed.

Lemma step_started w w' : step tools w w' → started w → started w'.
Proof.
  intros [env|env|env|env|indata|d m] Hw.
  - by apply process_file_preserves; [apply started_about_recorder|].
  - apply start_recording_started.
  - by apply stop_recording_started.
  - by apply update_timer_started.
  - by apply audio_callback_started.
  - done.
Qed.

Lemma reachable_started w : reachable tools w → started w.
Proof.
  unfold reachable. revert w. apply (rtc_ind_r started initial_world).
  - by intros [? [=]].
  - intros w1 w2 _ Hstep Hw1. by eapply step_started.
Qed.

(** C8: stopping with no stream, or with a stream and no chunk buffered,
    writes no file, runs no step of the pipeline and leaves the analysis
    widgets and the highlights as they are. With no stream the only change
    is the status "Recording was not started."; with a stream that stops
    and closes cleanly the status is "No audio data recorded." and no error
    dialog is shown. When the stream fails to stop or to close, the failure
    is shown in the dialog "Recording Error" and the status stays as it
    was. *)
Theorem stop_recording_without_audio env w :
  reachable tools w →
  recording_stream (recorder w) = None ∨ recorded_frames (recorder w) = [] →
  ∃ w' new,
    stop_recording tools env w = (Ok tt, w') ∧
    trace w' = trace w ++ new ∧
    Forall (fun e => ¬ writes_file e ∧ ¬ runs_pipeline e) new ∧
    display w' = display w ∧
    inline_errors w' = inline_errors w ∧
    (recording_stream (recorder w) = None →
       w' = with_timer_label "Recording was not started." w) ∧
    (is_Some (recording_stream (recorder w)) →
       match stream_stop env, stream_close env with
       | Ok _, Ok _ =>
           timer_label w' = "No audio data recorded." ∧
           Forall (fun e => ¬ hard_error e) new
       | Raise failure, _ | Ok _, Raise failure =>
           timer_label w' = timer_label w ∧
           last new = Some (ShowError "Recording Error"
                              ("Error stopping recording: " +:+ exn_str failure))
       end).
Proof.
  intros Hstarted%reachable_started Hcase.
  destruct w as [[stream frames start job] disp label inline tr].
  unfold started in Hstarted. simpl in Hstarted, Hcase.
  destruct stream as [s|].
  - destruct Hcase as [[=] | ->].
    destruct Hstarted as [t0 ->]; [by eexists|].
    unfold stop_recording, try_except, mbind, M_bind, external, gets, modify; simpl.
    destruct (stream_stop env) as [[]|e1] eqn:Estop; simpl.
    + destruct (stream_close env) as [[]|e2] eqn:Eclose; simpl.
      * destruct job as [j|]; [destruct (decide (j = ""))|]; simpl;
          eexists _, _; (split; [reflexivity|]); simpl;
          rewrite <- ?app_assoc; (split; [reflexivity|]);
          (split; [repeat constructor; by intros []|]);
          (split; [reflexivity|]); (split; [reflexivity|]);
          (split; [by intros [=]|]); intros _;
          (split; [reflexivity|]); repeat constructor; by intros [].
      * eexists _, _. split; [reflexivity|]. simpl. rewrite <- ?app_assoc.
        split; [reflexivity|]. split; [repeat constructor; by intros []|].
        split; [reflexivity|]. split; [reflexivity|].
        split; [by intros [=]|]. intros _. split; reflexivity.
    + eexists _, _. split; [reflexivity|]. simpl. rewrite <- ?app_assoc.
      split; [reflexivity|]. split; [repeat constructor; by intros []|].
      split; [reflexivity|]. split; [reflexivity|].
      split; [by intros [=]|]. intros _. split; reflexivity.
  - exists (with_timer_label "Recording was not started."
              {| recorder := {| recording_stream := None; recorded_frames := frames;
                                recording_start_time := start; timer_job := job |};
                 display := disp; timer_label := label;
                 inline_errors := inline; trace := tr |}), [].
    split; [reflexivity|]. simpl. rewrite app_nil_r.
    split; [reflexivity|]. split; [constructor|].
    split; [reflexivity|]. split; [reflexivity|].
    split; [done|]. by intros [? [=]].
Qed.

Lemma check_grammar_no_matches (text : string) :
  tool_check tools text = [] →
  ∃ v, check_grammar tools text = Ok (v, [], breakdown 0 0 0 0, 0) ∧ (v == 100)%Q.
Proof.
  intros Hnone. unfold check_grammar. rewrite Hnone. cbn [check_loop mbind result_bind].
  destruct (overall_score_breakdown 0 0 0 0) as (v & Hv & Heq).
  fold (breakdown 0 0 0 0). rewrite Hv. cbn. exists v. split; [done|].
  rewrite Heq. reflexivity.
Qed.

Lemma compute_metrics_empty (audio_duration : Q) (eb : gmap string Z) (v : Q)
    (rate : PyNum.number) :
  speaking_rate "" audio_duration = Ok rate →
  ∃ m, compute_metrics "" audio_duration eb v = Ok m ∧
       word_count m = 0 ∧ has_value (wpm m) 0 ∧ score m = v.
Proof.
  intros Hrate. rewrite (compute_metrics_run _ _ _ _ _ Hrate).
  eexists. split; [reflexivity|]. cbn. split; [done|]. split; [|done].
  by apply (words_per_minute_no_words audio_duration).
Qed.

Lemma analyse_run transcript audio_duration w v details eb total m :
  check_grammar tools transcript = Ok (v, details, eb, total) →
  compute_metrics transcript audio_duration eb v = Ok m →
  analyse tools transcript audio_duration w =
  (Ok {| a_overall_score := v; a_error_details := details;
         a_error_breakdown := eb; a_total_errors := total;
         a_advanced_style := advanced_style_analysis tools transcript;
         a_contextual_feedback := contextual_language_feedback transcript details;
         a_metrics := m;
         a_report := generate_report tools m (advanced_style_analysis tools transcript)
                       (contextual_language_feedback transcript details) |},
   with_event (Invoke Report transcript)
     (with_event (Invoke ComputeMetrics transcript)
        (with_event (Invoke Feedback transcript)
           (with_event (Invoke StyleAnalysis transcript)
              (with_event (Invoke CheckGrammar transcript) w))))).
Proof.
  intros Hcheck Hmetrics. unfold analyse.
  rewrite bind_modify, bind_run. unfold lift at 1. rewrite Hcheck.
  rewrite bind_modify, bind_modify, bind_modify, bind_run. unfold lift at 1.
  rewrite Hmetrics. rewrite bind_modify. reflexivity.
Qed.

(** C10: when Whisper fails, [transcribe_audio] reports it and returns
    the empty string, and [process_file] goes on with it: with no issue
    found in the empty text, and a duration of the file at which the
    speaking rate of line 80 has a value, the run ends normally, having
    gone through the grammar check up to the report, and shows 0 words,
    0 words per minute and a score of 100. *)
Theorem transcription_failure_continues env w e :
  model_transcribe env = Raise e →
  (∀ file_path,
     transcribe_audio env file_path w =
     (Ok "", with_event (ShowError "Transcription Error"
                           ("Error during transcription: " +:+ exn_str e))
               (with_event (Invoke Transcribe file_path) w))) ∧
  (askopenfilename env ≠ "" → tool_check tools "" = [] →
   rate_defined "" (match sf_info_duration env with Ok d => d | Raise _ => 0%Q end) →
   ∃ a w' new,
     process_file tools env w = (Ok tt, w') ∧
     trace w' = trace w ++ new ∧
     Invoke CheckGrammar "" ∈ new ∧ Invoke Report "" ∈ new ∧
     transcript_text (display w') = "" ∧
     errors_text (display w') = "No grammatical errors found." ∧
     report_text (display w') =
       generate_report tools (a_metrics a) (a_advanced_style a) (a_contextual_feedback a) ∧
     a_total_errors a = 0 ∧
     word_count (a_metrics a) = 0 ∧
     has_value (wpm (a_metrics a)) 0 ∧
     (score (a_metrics a) == 100)%Q).
Proof.
  intros Hfail.
  assert (Htranscribe : ∀ file_path w0,
     transcribe_audio env file_path w0 =
     (Ok "", with_event (ShowError "Transcription Error"
                           ("Error during transcription: " +:+ exn_str e))
               (with_event (Invoke Transcribe file_path) w0))).
  { intros file_path w0. unfold transcribe_audio, try_except, external.
    rewrite Hfail. reflexivity. }
  split; [intros file_path; apply Htranscribe|].
  intros Hpath Hnone [rate Hrate].
  destruct (check_grammar_no_matches "" Hnone) as (v & Hcheck & Hv).
  unfold process_file. destruct (askopenfilename env) as [|c path] eqn:Epath; [done|].
  rewrite bind_run, Htranscribe, bind_run, try_external_default.
  set (audio_duration := match sf_info_duration env with Ok d => d | Raise _ => 0%Q end).
  pose proof (compute_metrics_empty audio_duration (breakdown 0 0 0 0) v rate Hrate)
    as (m & Hmetrics & Hwords & Hwpm & Hscore).
  rewrite bind_run, (analyse_run _ _ _ _ _ _ _ _ Hcheck Hmetrics).
  exists {| a_overall_score := v; a_error_details := [];
            a_error_breakdown := breakdown 0 0 0 0; a_total_errors := 0;
            a_advanced_style := advanced_style_analysis tools "";
            a_contextual_feedback := contextual_language_feedback "" [];
            a_metrics := m;
            a_report := generate_report tools m (advanced_style_analysis tools "")
                          (contextual_language_feedback "" []) |}.
  eexists _, _. split; [reflexivity|]. cbn [trace display with_event with_display
    with_inline_errors transcript_text errors_text report_text a_metrics a_report
    a_error_details a_total_errors a_advanced_style a_contextual_feedback].
  rewrite <- !app_assoc. split; [reflexivity|].
  split; [set_solver|]. split; [set_solver|].
  split; [reflexivity|]. split; [reflexivity|]. split; [reflexivity|].
  split; [reflexivity|]. split; [exact Hwords|]. split; [exact Hwpm|].
  rewrite Hscore. exact Hv.
Qed.
End Controllers.

(** ** The properties at work *)



Lemma filler_count_occurrences_witness :
  ∃ m, compute_metrics "Um, like, you know" 60 ∅ 100 = Ok m ∧ filler_count m = 3.
Proof.
  destruct (filler_count_occurrences "Um, like, you know" 60 ∅ 100) as [Hcount _].
  destruct Hcount as (m & Hm & Hfillers);
    [exists (PyNum.Float (B64.of_Z 4)); vm_compute; reflexivity|].
  exists m. split; [exact Hm|]. rewrite Hfillers. reflexivity.
Defined.

Lemma errors_summary_three_keys_witness :
  ∃ m, compute_metrics "a b" 60 {[ "GRAMMAR" := 2; "STYLE" := 4 ]} 90 = Ok m ∧
       errors m !! "GRAMMAR" = Some 2 ∧ errors m !! "TYPOS" = Some 0 ∧
       errors m !! "STYLE" = None.
Proof.
  destruct (errors_summary_three_keys "a b" 60 {[ "GRAMMAR" := 2; "STYLE" := 4 ]} 90)
    as (m & Hm & _ & Hgrammar & Htypos & _ & Hstyle & _);
    [exists (PyNum.Float (B64.of_Z 2)); vm_compute; reflexivity|].
  exists m. split; [exact Hm|]. split; [exact Hgrammar|]. split; [exact Htypos|exact Hstyle].
Defined.

Lemma feedback_deduplicated_witness :
  contextual_language_feedback "" [] = NO_FEEDBACK.
Proof.
  destruct (feedback_deduplicated "" []) as (cats & _ & _ & _ & _ & _ & Hnone & _).
  apply Hnone. intros c d Hd. inversion Hd.
Defined.

Lemma stop_recording_without_audio_witness :
  reachable example_tools recording_world ∧
  recorded_frames (recorder recording_world) = [] ∧
  ∃ w', stop_recording example_tools example_env recording_world = (Ok tt, w') ∧
        display w' = display recording_world ∧
        timer_label w' = "No audio data recorded.".
Proof.
  assert (Hreach : reachable example_tools recording_world).
  { apply rtc_once. apply step_start_recording. }
  split; [exact Hreach|]. split; [reflexivity|].
  destruct (stop_recording_without_audio example_tools example_env recording_world Hreach)
    as (w' & new & Hrun & _ & _ & Hdisplay & _ & _ & Hstatus).
  - right. reflexivity.
  - exists w'. split; [exact Hrun|]. split; [exact Hdisplay|].
    apply Hstatus. by eexists.
Defined.

(** With a stream and no chunk, a device that fails to stop the stream gets
    the error dialog, and no status is reported. *)
Lemma stop_recording_not_as_stated :
  reachable example_tools recording_world ∧
  is_Some (recording_stream (recorder recording_world)) ∧
  recorded_frames (recorder recording_world) = [] ∧
  let w' := (stop_recording example_tools device_failure_env recording_world).2 in
  timer_label w' = timer_label recording_world ∧
  last (trace w') = Some (ShowError "Recording Error"
                            "Error stopping recording: PortAudio error") ∧
  Exists hard_error (drop (length (trace recording_world)) (trace w')).
Proof.
  split; [apply rtc_once, step_start_recording|].
  split; [by eexists|]. split; [reflexivity|].
  split; [vm_compute; reflexivity|]. split; [vm_compute; reflexivity|].
  vm_compute. apply Exists_cons_tl, Exists_cons_hd. exact I.
Qed.

Lemma transcription_failure_continues_witness :
  model_transcribe example_env = Raise (ExternalError "cannot decode talk.wav") ∧
  ∃ a w', process_file example_tools example_env initial_world = (Ok tt, w') ∧
          transcript_text (display w') = "" ∧
          word_count (a_metrics a) = 0 ∧
          has_value (wpm (a_metrics a)) 0 ∧
          (score (a_metrics a) == 100)%Q.
Proof.
  split; [reflexivity|].
  destruct (transcription_failure_continues example_tools example_env initial_world
              (ExternalError "cannot decode talk.wav") eq_refl)
    as [_ Hrun].
  destruct Hrun as (a & w' & new & Hrun & _ & _ & _ & Htext & _ & _ & _ & Hwords & Hwpm & Hscore).
  - discriminate.
  - reflexivity.
  - exists (PyNum.Float (S754_zero false)). vm_compute. reflexivity.
  - exists a, w'. auto.
Defined.

(** The classifier and the grammar-check step on two issues: a typo and an
    agreement error cost 2 + 3 points. *)
Example classify_examples :
  classify_error typo_match = TYPOS ∧ classify_error agreement_match = GRAMMAR.
Proof. split; reflexivity. Qed.

Example check_grammar_example :
  ∃ v details, check_grammar example_tools "teh cats runs"
               = Ok (v, details, breakdown 1 1 0 0, 2) ∧ (v == 95)%Q ∧
               length details = 2%nat.
Proof. eexists _, _. split; [vm_compute; reflexivity|]. split; reflexivity. Qed.

(** "uh" is counted inside "duh", and "like" once in "likelike" twice. *)
Example filler_substring_example :
  PyStr.count "uh" (PyStr.lower "Duh, I am likeLIKE that") = 1%nat ∧
  PyStr.count "like" (PyStr.lower "Duh, I am likeLIKE that") = 2%nat.
Proof. split; reflexivity. Qed.

(** On a word that overlaps itself [str.count] and the raw count differ;
    no filler word is of that kind. *)
Example count_overlapping_example :
  PyStr.count "aa" "aaa" = 1%nat ∧ occurrences "aa" "aaa" = 2%nat ∧
  forallb first_char_unique FILLER_WORDS = true.
Proof. repeat split; reflexivity. Qed.

(** Two details with the same tag give one suggestion; a detail with two
    tags gives both, typos first. *)
Example feedback_examples :
  contextual_language_feedback ""
    ["Category: GRAMMAR"; "Category: STYLE"; "x Category: GRAMMAR y"]
  = GRAMMAR_SUGGESTION +:+ " " +:+ STYLE_SUGGESTION ∧
  contextual_language_feedback "" ["Category: GRAMMAR and Category: TYPOS"]
  = TYPOS_SUGGESTION +:+ " " +:+ GRAMMAR_SUGGESTION.
Proof. split; vm_compute; reflexivity. Qed.

(** With one chunk buffered, stopping does write the file and run the
    pipeline. *)
Example stop_recording_with_audio :
  let w := (audio_callback [1%Q; 2%Q] recording_world).2 in
  let w' := (stop_recording example_tools example_env w).2 in
  Exists writes_file (trace w') ∧ Exists runs_pipeline (trace w') ∧
  timer_label w' = "Recording Stopped" ∧ transcript_text (display w') = "".
Proof.
  vm_compute. split; [|split; [|split; reflexivity]];
    repeat first [apply Exists_cons_hd; exact I | apply Exists_cons_tl].
Qed.

(** A float is the float nearest to its value: 0.1, the smallest and the
    largest float. *)
Example of_Q_to_Q_examples :
  Forall (fun x => ∃ v, B64.to_Q x = Some v ∧ B64.of_Q v = x)
    [B64.of_Q (1 # 10); B64.of_Q smallest_float; B64.of_Z (2 ^ 1024 - 2 ^ 971)] ∧
  B64.to_Q (B64.of_Q (1 # 10)) = Some (7205759403792794 # 2 ^ 56).
Proof.
  split; [|reflexivity].
  repeat constructor; eexists; (split; [reflexivity|]); vm_compute; reflexivity.
Qed.

(** The speaking rate is what binary64 gives. One word in 2400 s is 0.03 a
    minute and 77 words in 352 s are 13.13: the quotients, 0.025 and 13.125
    in exact arithmetic, are floats just above. One word in 480 s is 0.125
    exactly and rounds to the even 0.12. A duration of 31 times the
    smallest float gives one word an infinite rate; at 30 times the
    smallest float the minutes are zero and the division raises. *)
Example words_per_minute_examples :
  words_per_minute PyNum.truediv 1 2400 = Ok (PyNum.Float (B64.of_Q (3 # 100))) ∧
  words_per_minute PyNum.truediv 77 352 = Ok (PyNum.Float (B64.of_Q (1313 # 100))) ∧
  words_per_minute PyNum.truediv 1 480 = Ok (PyNum.Float (B64.of_Q (12 # 100))) ∧
  words_per_minute PyNum.truediv 5 10 = Ok (PyNum.Float (B64.of_Z 30)) ∧
  words_per_minute PyNum.truediv 1 (31 * smallest_float)
    = Ok (PyNum.Float (S754_infinity false)) ∧
  words_per_minute PyNum.truediv 1 (30 * smallest_float) = Raise ZeroDivisionError ∧
  words_per_minute PyNum.truediv (2 ^ 1024) 60 = Raise OverflowError.
Proof. repeat split; vm_compute; reflexivity. Qed.

(** * Further properties *)

(** ** The grammar-check step and the feedback *)

(** What [check_grammar] returns, in one equation. *)
Lemma check_grammar_run (tools : Tools) (text : string) :
  let matches := tool_check tools text in
  ∃ v, check_grammar tools text
       = Ok (v, (fun m => error_info m (category_name (classify_error m))) <$> matches,
             breakdown (classified GRAMMAR matches) (classified TYPOS matches)
                       (classified PUNCTUATION matches) (classified STYLE matches),
             Z.of_nat (length matches)) ∧
       (v == Qmax (100 - (3 * inject_Z (classified GRAMMAR matches)
                          + 2 * inject_Z (classified TYPOS matches)
                          + 1 * inject_Z (classified PUNCTUATION matches)
                          + (3 # 2) * inject_Z (classified STYLE matches))) 0)%Q.
Proof.
  intros matches. unfold check_grammar. fold matches.
  change ({[ "GRAMMAR" := 0; "TYPOS" := 0; "PUNCTUATION" := 0; "STYLE" := 0 ]}
            : gmap string Z) with (breakdown 0 0 0 0).
  rewrite check_loop_counts. cbn [mbind result_bind]. rewrite !Z.add_0_l, app_nil_l.
  destruct (overall_score_breakdown (classified GRAMMAR matches) (classified TYPOS matches)
              (classified PUNCTUATION matches) (classified STYLE matches))
    as (v & -> & Hv).
  exists v. split; [reflexivity | exact Hv].
Qed.

Lemma classified_nonneg (c : category) (matches : list IssueMatch) :
  0 ≤ classified c matches.
Proof. unfold classified. lia. Qed.

(** X1: the score of the grammar-check step lies between
    max(100 - 3n, 0) and max(100 - n, 0) for n matches: it is 100 exactly
    when there is no match, and 0 from a hundred matches on. *)
Theorem check_grammar_score_bounds (tools : Tools) (text : string) :
  let n := inject_Z (Z.of_nat (length (tool_check tools text))) in
  ∃ v details eb total,
    check_grammar tools text = Ok (v, details, eb, total) ∧
    (Qmax (100 - 3 * n) 0 <= v)%Q ∧
    (v <= Qmax (100 - n) 0)%Q ∧
    ((v == 100)%Q ↔ tool_check tools text = []) ∧
    ((100 <= n)%Q → (v == 0)%Q).
Proof.
  intros n. destruct (check_grammar_run tools text) as (v & Hrun & Hv).
  eexists v, _, _, _. split; [exact Hrun|].
  set (matches := tool_check tools text) in *.
  pose proof (classified_total matches) as Htotal.
  pose proof (classified_nonneg GRAMMAR matches) as Hg.
  pose proof (classified_nonneg TYPOS matches) as Ht.
  pose proof (classified_nonneg PUNCTUATION matches) as Hp.
  pose proof (classified_nonneg STYLE matches) as Hs.
  assert (Hn : (n == inject_Z (classified GRAMMAR matches) + inject_Z (classified TYPOS matches)
                   + inject_Z (classified PUNCTUATION matches)
                   + inject_Z (classified STYLE matches))%Q).
  { unfold n. rewrite <- Htotal, !inject_Z_plus. reflexivity. }
  rewrite Zle_Qle in Hg, Ht, Hp, Hs. change (inject_Z 0) with 0%Q in Hg, Ht, Hp, Hs.
  set (g := inject_Z (classified GRAMMAR matches)) in *.
  set (t := inject_Z (classified TYPOS matches)) in *.
  set (p := inject_Z (classified PUNCTUATION matches)) in *.
  set (s := inject_Z (classified STYLE matches)) in *.
  assert (Hempty : matches = [] ↔ (n == 0)%Q).
  { unfold n. destruct matches as [|m l]; [done|].
    split; [done|]. intros H. exfalso. revert H. unfold Qeq. simpl. lia. }
  clearbody g t p s n. rewrite Hv. split; [|split; [|split]].
  - apply Q.max_le_compat_r. lra.
  - apply Q.max_le_compat_r. lra.
  - rewrite Hempty. split.
    + intros H. destruct (Q.max_spec (100 - (3 * g + 2 * t + 1 * p + (3 # 2) * s)) 0)
        as [[_ Hm] | [_ Hm]]; rewrite Hm in H; lra.
    + intros H. rewrite Q.max_l; lra.
  - intros H. rewrite Q.max_r; [reflexivity | lra].
Qed.

Lemma append_assoc (s t u : string) : (s +:+ t) +:+ u = s +:+ t +:+ u.
Proof. induction s as [|c s IH]; [done|]. rewrite !append_cons. by rewrite IH. Qed.

Lemma append_nil_r (s : string) : s +:+ "" = s.
Proof. induction s as [|c s IH]; [done|]. rewrite append_cons. by rewrite IH. Qed.

Lemma is_substring_middle (before sub behind : string) :
  is_substring sub (before +:+ sub +:+ behind).
Proof. by exists before, behind. Qed.

Lemma tag_category_name (c : category) : tag c = "Category: " +:+ category_name c.
Proof. by destruct c. Qed.

Lemma error_info_shows (m : IssueMatch) (c : category) :
  let d := error_info m (category_name c) in
  is_substring (tag c) d ∧
  is_substring ("Error: " +:+ message m) d ∧
  is_substring ("Context: '" +:+ context m +:+ "'") d ∧
  is_substring ("Suggested Correction: " +:+ first_suggestion m) d.
Proof.
  assert (Hfirst : first_suggestion m =
            match replacements m with first :: _ => first | [] => "No suggestion available" end).
  { unfold first_suggestion. by destruct (replacements m). }
  cbv zeta. unfold error_info. rewrite <- Hfirst, tag_category_name.
  split; [|split; [|split]].
  - exists ("Error: " +:+ message m +:+ nl). eexists.
    rewrite !append_assoc. reflexivity.
  - exists "". eexists. rewrite append_nil_l, !append_assoc. reflexivity.
  - exists ("Error: " +:+ message m +:+ nl +:+ "Category: " +:+ category_name c +:+ nl).
    eexists. rewrite !append_assoc. reflexivity.
  - exists ("Error: " +:+ message m +:+ nl +:+ "Category: " +:+ category_name c +:+ nl
            +:+ "Context: '" +:+ context m +:+ "'" +:+ nl).
    eexists. rewrite !append_assoc. reflexivity.
Qed.

(** X2: the grammar-check step returns one detail per match, in the order
    of the matches; the detail of a match shows the tag of its category, its
    message, its context and its first replacement, or "No suggestion
    available" when it has none. *)
Theorem check_grammar_details (tools : Tools) (text : string) :
  ∃ v details eb total,
    check_grammar tools text = Ok (v, details, eb, total) ∧
    length details = length (tool_check tools text) ∧
    ∀ i m, tool_check tools text !! i = Some m →
      ∃ d, details !! i = Some d ∧
           is_substring (tag (classify_error m)) d ∧
           is_substring ("Error: " +:+ message m) d ∧
           is_substring ("Context: '" +:+ context m +:+ "'") d ∧
           is_substring ("Suggested Correction: " +:+ first_suggestion m) d.
Proof.
  destruct (check_grammar_run tools text) as (v & Hrun & _).
  eexists v, _, _, _. split; [exact Hrun|]. split; [by rewrite length_fmap|].
  intros i m Hi. eexists. split.
  - rewrite list_lookup_fmap, Hi. reflexivity.
  - apply error_info_shows.
Qed.

Lemma feedback_value (text : string) (error_details : list string) :
  contextual_language_feedback text error_details =
  match fromkeys (observations error_details) with
  | [] => NO_FEEDBACK
  | cats => PyStr.join " " (suggestion <$> cats)
  end.
Proof.
  pose proof suggestion_inj as Hinj.
  unfold contextual_language_feedback.
  rewrite feedback_loop_observations, app_nil_l, fromkeys_fmap by apply _.
  by destruct (fromkeys (observations error_details)).
Qed.

Lemma join_substring (sep x : string) (l : list string) :
  x ∈ l → is_substring x (PyStr.join sep l).
Proof.
  induction l as [|y l IH]; [by intros ?%elem_of_nil|].
  intros [-> | Hx]%elem_of_cons.
  - destruct l as [|z l].
    + exists "", "". by rewrite append_nil_l, append_nil_r.
    + exists "". eexists. cbn [PyStr.join]. rewrite append_nil_l. reflexivity.
  - destruct (IH Hx) as (before & behind & Heq).
    destruct l as [|z l]; [by apply elem_of_nil in Hx|].
    exists (y +:+ sep +:+ before), behind. cbn [PyStr.join] in *.
    rewrite Heq, !append_assoc. reflexivity.
Qed.

Lemma join_suggestions_not_fixed (c : category) (cats : list category) :
  PyStr.join " " (suggestion <$> c :: cats) ≠ NO_FEEDBACK.
Proof.
  destruct cats as [|c' cats]; destruct c; vm_compute; discriminate.
Qed.

(** X3: on the details of the grammar-check step the feedback is the fixed
    sentence exactly when there is no match, and it contains the suggestion
    of the category of every match. *)
Theorem check_grammar_feedback (tools : Tools) (text : string) :
  ∃ v details eb total,
    check_grammar tools text = Ok (v, details, eb, total) ∧
    (contextual_language_feedback text details = NO_FEEDBACK
     ↔ tool_check tools text = []) ∧
    ∀ m, m ∈ tool_check tools text →
      is_substring (suggestion (classify_error m))
                   (contextual_language_feedback text details).
Proof.
  destruct (check_grammar_run tools text) as (v & Hrun & _).
  eexists v, _, _, _. split; [exact Hrun|].
  set (matches := tool_check tools text).
  set (details := (fun m => error_info m (category_name (classify_error m))) <$> matches).
  assert (Hobserved : ∀ m, m ∈ matches →
            classify_error m ∈ fromkeys (observations details)).
  { intros m Hm. rewrite fromkeys_elem_of, observations_elem_of.
    exists (error_info m (category_name (classify_error m))). split.
    - unfold details.
      by apply (list_elem_of_fmap_2
                  (fun m => error_info m (category_name (classify_error m)))).
    - apply error_info_shows. }
  rewrite feedback_value. split.
  - split.
    + intros Hfixed. destruct matches as [|m l] eqn:E; [done|]. exfalso.
      destruct (fromkeys (observations details)) as [|c cats] eqn:Ecats.
      * specialize (Hobserved m). rewrite elem_of_nil in Hobserved.
        apply Hobserved. by left.
      * by apply join_suggestions_not_fixed in Hfixed.
    + intros Hnone. unfold details. rewrite Hnone. reflexivity.
  - intros m Hm. specialize (Hobserved m Hm).
    destruct (fromkeys (observations details)) as [|c cats] eqn:Ecats;
      [by apply elem_of_nil in Hobserved|].
    apply join_substring. by apply list_elem_of_fmap_2.
Qed.

Lemma fromkeys_absorb {A} `{EqDecision A} (l l' : list A) :
  (∀ x, x ∈ l' → x ∈ l) → fromkeys (l ++ l') = fromkeys l.
Proof.
  induction l' as [|x l' IH] using rev_ind; intros Hin; [by rewrite app_nil_r|].
  rewrite app_assoc, fromkeys_snoc.
  assert (Hl' : ∀ y, y ∈ l' → y ∈ l).
  { intros y Hy. apply Hin, elem_of_app. by left. }
  rewrite decide_True; [by apply IH|].
  rewrite fromkeys_elem_of, elem_of_app. left. apply Hin, elem_of_app. right. by left.
Qed.

(** X4: details that only show tags already shown by earlier details do
    not change the feedback, and the text argument never does. *)
Theorem feedback_absorbs_repeats (text text' : string) (error_details more : list string) :
  (∀ d c, d ∈ more → is_substring (tag c) d →
     ∃ d0, d0 ∈ error_details ∧ is_substring (tag c) d0) →
  contextual_language_feedback text' (error_details ++ more)
  = contextual_language_feedback text error_details.
Proof.
  intros Hseen. rewrite !feedback_value.
  unfold observations. rewrite bind_app. fold (observations error_details) (observations more).
  rewrite fromkeys_absorb; [done|].
  intros c (d & Hd & Htag)%observations_elem_of.
  apply observations_elem_of. by eapply Hseen.
Qed.

(** ** Letter case, words and fillers *)

Lemma lower_char_idempotent (c : ascii) :
  PyStr.lower_char (PyStr.lower_char c) = PyStr.lower_char c.
Proof. destruct c as [[] [] [] [] [] [] [] []]; reflexivity. Qed.

Lemma isspace_lower_char (c : ascii) :
  PyStr.isspace (PyStr.lower_char c) = PyStr.isspace c.
Proof. destruct c as [[] [] [] [] [] [] [] []]; reflexivity. Qed.

Lemma lower_idempotent (s : string) : PyStr.lower (PyStr.lower s) = PyStr.lower s.
Proof. induction s as [|c s IH]; [done|]. simpl. by rewrite lower_char_idempotent, IH. Qed.

Lemma lower_length (s : string) : String.length (PyStr.lower s) = String.length s.
Proof. induction s as [|c s IH]; [done|]. simpl. by rewrite IH. Qed.

Lemma flush_length (cur cur' : string) :
  (cur = "" ↔ cur' = "") → length (PyStr.flush cur) = length (PyStr.flush cur').
Proof.
  destruct cur, cur'; simpl; intros [H1 H2]; try done;
    [specialize (H1 eq_refl) | specialize (H2 eq_refl)]; discriminate.
Qed.

Lemma snoc_nonempty (cur : string) (c : ascii) : cur +:+ String c "" ≠ "".
Proof. destruct cur; discriminate. Qed.

Lemma split_go_length_lower (s cur cur' : string) :
  (cur = "" ↔ cur' = "") →
  length (PyStr.split_go cur (PyStr.lower s)) = length (PyStr.split_go cur' s).
Proof.
  revert cur cur'. induction s as [|c s IH]; intros cur cur' Hcur; simpl.
  - by apply flush_length.
  - rewrite isspace_lower_char. destruct (PyStr.isspace c).
    + rewrite !length_app, (flush_length cur cur') by done. f_equal. by apply IH.
    + apply IH. split; intros H; by apply snoc_nonempty in H.
Qed.

Lemma split_length_lower (s : string) :
  length (PyStr.split (PyStr.lower s)) = length (PyStr.split s).
Proof. by apply split_go_length_lower. Qed.

(** X5: lowercasing the message of a match does not change its
    category. *)
Theorem classify_error_case_insensitive (m : IssueMatch) :
  classify_error
    {| offset := offset m; errorLength := errorLength m;
       message := PyStr.lower (message m); ruleId := ruleId m;
       context := context m; replacements := replacements m |}
  = classify_error m.
Proof. unfold classify_error. simpl. by rewrite lower_idempotent. Qed.

(** X6: the metrics of a transcript and of its lowercased form are the
    same. *)
Theorem compute_metrics_case_insensitive (transcript : string) (audio_duration : Q)
    (error_breakdown : gmap string Z) (overall_score : Q) :
  compute_metrics (PyStr.lower transcript) audio_duration error_breakdown overall_score
  = compute_metrics transcript audio_duration error_breakdown overall_score.
Proof.
  unfold compute_metrics. by rewrite split_length_lower, lower_idempotent.
Qed.

Lemma split_go_nil (s cur : string) :
  PyStr.split_go cur s = [] ↔ cur = "" ∧ blank s = true.
Proof.
  revert cur. induction s as [|c s IH]; intros cur; simpl.
  - destruct cur; simpl; intuition congruence.
  - destruct (PyStr.isspace c); simpl.
    + rewrite app_nil, IH. destruct cur; simpl; intuition congruence.
    + rewrite IH. split; [|intuition congruence]. intros [H _]. by apply snoc_nonempty in H.
Qed.

Lemma split_go_append (a b cur : string) (ws : ascii) :
  PyStr.isspace ws = true →
  PyStr.split_go cur (a +:+ String ws b) = PyStr.split_go cur a ++ PyStr.split b.
Proof.
  intros Hws. revert cur. induction a as [|c a IH]; intros cur.
  - rewrite append_nil_l. simpl. by rewrite Hws.
  - rewrite append_cons. simpl. destruct (PyStr.isspace c).
    + by rewrite IH, app_assoc.
    + apply IH.
Qed.

Lemma split_go_length_le (s cur : string) :
  (length (PyStr.split_go cur s) ≤ length (PyStr.flush cur) + String.length s)%nat.
Proof.
  revert cur. induction s as [|c s IH]; intros cur; simpl; [lia|].
  destruct (PyStr.isspace c).
  - rewrite length_app. specialize (IH ""). simpl in IH. lia.
  - specialize (IH (cur +:+ String c "")).
    assert (length (PyStr.flush (cur +:+ String c "")) = 1)%nat as Hone.
    { destruct cur; reflexivity. }
    destruct cur; simpl in *; lia.
Qed.

Lemma compute_metrics_word_count (transcript : string) (audio_duration : Q)
    (error_breakdown : gmap string Z) (overall_score : Q) :
  rate_defined transcript audio_duration →
  ∃ m, compute_metrics transcript audio_duration error_breakdown overall_score = Ok m ∧
       word_count m = Z.of_nat (length (PyStr.split transcript)).
Proof.
  intros [rate Hrate]. rewrite (compute_metrics_run _ _ _ _ _ Hrate).
  eexists. split; reflexivity.
Qed.

(** X7: the word count of two texts joined by a space is the sum of their
    word counts; it is 0 exactly for a text of whitespace only, and never
    above the number of characters. The three metrics are taken at a
    duration at which the speaking rate of each text has a value. *)
Theorem word_count_words (a b : string) (audio_duration : Q)
    (error_breakdown : gmap string Z) (overall_score : Q) :
  rate_defined (a +:+ " " +:+ b) audio_duration →
  rate_defined a audio_duration →
  rate_defined b audio_duration →
  ∃ m ma mb,
    compute_metrics (a +:+ " " +:+ b) audio_duration error_breakdown overall_score = Ok m ∧
    compute_metrics a audio_duration error_breakdown overall_score = Ok ma ∧
    compute_metrics b audio_duration error_breakdown overall_score = Ok mb ∧
    word_count m = word_count ma + word_count mb ∧
    (word_count ma = 0 ↔ blank a = true) ∧
    0 ≤ word_count ma ≤ Z.of_nat (String.length a).
Proof.
  intros Hab Ha Hb.
  destruct (compute_metrics_word_count (a +:+ " " +:+ b) audio_duration error_breakdown
              overall_score Hab) as (m & Hm & Hwm).
  destruct (compute_metrics_word_count a audio_duration error_breakdown overall_score Ha)
    as (ma & Hma & Hwa).
  destruct (compute_metrics_word_count b audio_duration error_breakdown overall_score Hb)
    as (mb & Hmb & Hwb).
  exists m, ma, mb. split; [exact Hm|]. split; [exact Hma|]. split; [exact Hmb|].
  rewrite Hwm, Hwa, Hwb. split; [|split].
  - unfold PyStr.split at 1. change (" " +:+ b) with (String " " b).
    rewrite split_go_append by reflexivity. rewrite length_app. fold (PyStr.split a). lia.
  - unfold PyStr.split. pose proof (split_go_nil a "") as Hnil.
    destruct (PyStr.split_go "" a) as [|w l]; simpl length.
    + split; [intros _; by apply Hnil | done].
    + split; [lia|]. intros Hblank. destruct Hnil as [_ Hnil].
      by specialize (Hnil (conj eq_refl Hblank)).
  - pose proof (split_go_length_le a "") as Hle. unfold PyStr.split. simpl in Hle. lia.
Qed.

(** ** Filler words *)

Lemma occurrences_zero (sub s : string) :
  occurrences sub s = 0%nat ↔ PyStr.contains sub s = false.
Proof.
  induction s as [|c s IH]; simpl.
  - destruct (PyStr.startswith sub ""); simpl; split; (done || lia).
  - rewrite orb_false_iff, <- IH.
    destruct (PyStr.startswith sub (String c s)); simpl; split; try lia; try done;
      intuition (try discriminate; try lia).
Qed.

Lemma count_positive (sub s : string) :
  first_char_unique sub = true →
  (0 < PyStr.count sub s)%nat ↔ is_substring sub s.
Proof.
  intros Hsub. rewrite count_occurrences by done. rewrite <- contains_iff.
  pose proof (occurrences_zero sub s) as H.
  destruct (PyStr.contains sub s); split; intros H'; try done.
  - destruct (occurrences sub s); [|lia]. destruct H as [H _]. by specialize (H eq_refl).
  - destruct H as [_ H]. specialize (H eq_refl). lia.
Qed.

(** X8: the filler count of the metrics, at a duration at which the
    speaking rate has a value, is never negative, and positive exactly when
    one of the filler words occurs in the lowercased transcript. *)
Theorem filler_count_positive (transcript : string) (audio_duration : Q)
    (error_breakdown : gmap string Z) (overall_score : Q) :
  rate_defined transcript audio_duration →
  ∃ m, compute_metrics transcript audio_duration error_breakdown overall_score = Ok m ∧
       0 ≤ filler_count m ∧
       (0 < filler_count m ↔
        ∃ filler, filler ∈ FILLER_WORDS ∧ is_substring filler (PyStr.lower transcript)).
Proof.
  intros [rate Hrate]. rewrite (compute_metrics_run _ _ _ _ _ Hrate).
  eexists. split; [reflexivity|]. cbn [filler_count].
  set (s := PyStr.lower transcript). unfold FILLER_WORDS. cbn [foldl].
  pose proof (count_positive "um" s eq_refl) as H1.
  pose proof (count_positive "uh" s eq_refl) as H2.
  pose proof (count_positive "like" s eq_refl) as H3.
  pose proof (count_positive "you know" s eq_refl) as H4.
  pose proof (count_positive "ah" s eq_refl) as H5.
  pose proof (count_positive "er" s eq_refl) as H6.
  split; [lia|]. split.
  - intros Hpos.
    destruct (decide (0 < PyStr.count "um" s)%nat); [exists "um"; split; [set_solver | tauto]|].
    destruct (decide (0 < PyStr.count "uh" s)%nat); [exists "uh"; split; [set_solver | tauto]|].
    destruct (decide (0 < PyStr.count "like" s)%nat); [exists "like"; split; [set_solver | tauto]|].
    destruct (decide (0 < PyStr.count "you know" s)%nat);
      [exists "you know"; split; [set_solver | tauto]|].
    destruct (decide (0 < PyStr.count "ah" s)%nat); [exists "ah"; split; [set_solver | tauto]|].
    destruct (decide (0 < PyStr.count "er" s)%nat); [exists "er"; split; [set_solver | tauto]|].
    lia.
  - intros (filler & Hin & Hsub).
    repeat (apply elem_of_cons in Hin as [-> | Hin]); [..|by apply elem_of_nil in Hin].
    all: match goal with H : (0 < PyStr.count ?f _)%nat ↔ is_substring ?f _ |- _ =>
           apply H in Hsub; clear H end; lia.
Qed.

(** ** The speaking rate *)

(** X9: whenever the speaking rate has a value it is the rate of the
    metrics, and it is never negative and never a NaN: the int 0 at a
    duration of 0 or below, else a float with a clear sign bit, which may be
    [inf]; for a transcript without words it is 0. *)
Theorem wpm_value (transcript : string) (audio_duration : Q)
    (error_breakdown : gmap string Z) (overall_score : Q) (rate : PyNum.number) :
  speaking_rate transcript audio_duration = Ok rate →
  ∃ m, compute_metrics transcript audio_duration error_breakdown overall_score = Ok m ∧
       wpm m = rate ∧
       nonnegative (wpm m) ∧
       ((audio_duration <= 0)%Q → wpm m = PyNum.Int 0) ∧
       ((0 < audio_duration)%Q → ∃ x, wpm m = PyNum.Float x ∧ B64.signed false x) ∧
       (word_count m = 0 → has_value (wpm m) 0).
Proof.
  intros Hrate. rewrite (compute_metrics_run _ _ _ _ _ Hrate).
  eexists. split; [reflexivity|]. cbn [wpm word_count]. split; [done|].
  assert (Hsign : nonnegative rate).
  { eapply words_per_minute_nonnegative; [|exact Hrate]. lia. }
  split; [exact Hsign|]. unfold speaking_rate in Hrate. split; [|split].
  - intros Hd. unfold words_per_minute in Hrate.
    destruct (Qlt_le_dec 0 audio_duration); [lra|]. by injection Hrate as <-.
  - intros Hd. unfold words_per_minute in Hrate.
    destruct (Qlt_le_dec 0 audio_duration) as [_|Hneg]; [|lra].
    destruct (PyNum.truediv _ _) as [minutes|]; [|done]. cbn [mbind result_bind] in Hrate.
    destruct (PyNum.float_of_int _) as [count|]; [|done]. cbn [mbind result_bind] in Hrate.
    destruct (PyNum.truediv count minutes) as [r|]; [|done]. cbn in Hrate.
    injection Hrate as <-. eexists. split; [reflexivity | exact Hsign].
  - intros Hzero. rewrite Hzero in Hrate.
    by apply (words_per_minute_no_words audio_duration).
Qed.

(** ** The recorder and the trace *)

(** X17: stopping never empties the buffer of chunks nor forgets the
    start time, however it ends: only the next start resets them. *)
Theorem stop_recording_keeps_buffer (tools : Tools) (env : Env) (w : World) :
  recorded_frames (recorder (stop_recording tools env w).2) = recorded_frames (recorder w) ∧
  recording_start_time (recorder (stop_recording tools env w).2)
  = recording_start_time (recorder w).
Proof.
  cut (preserves (buffer_is (recorded_frames (recorder w))
                            (recording_start_time (recorder w)))
                 (stop_recording tools env)).
  { intros H. by apply H. }
  generalize (recorded_frames (recorder w)) (recording_start_time (recorder w)).
  intros frames start. unfold stop_recording.
  preserve; try (match goal with H : buffer_is _ _ _ |- _ => exact H end).
Qed.

Lemma trace_with_event (e : event) (w : World) : trace (with_event e w) = trace w ++ [e].
Proof. reflexivity. Qed.

Ltac trace_step :=
  match goal with
  | H : Forall temp_file_only (trace ?w) |- Forall temp_file_only (trace (with_event ?e ?w)) =>
      rewrite trace_with_event; apply Forall_app; split; [exact H|];
      apply Forall_singleton; simpl; auto
  | H : Forall temp_file_only (trace ?w) |- Forall temp_file_only (trace _) => exact H
  end.

Lemma temp_file_only_step (tools : Tools) (w w' : World) :
  step tools w w' → Forall temp_file_only (trace w) → Forall temp_file_only (trace w').
Proof.
  intros Hstep. destruct Hstep as [env w|env w|env w|env w|indata w|d m w];
    try (intros Hw; exact Hw);
    match goal with |- _ → Forall _ (trace (?c ?w0).2) =>
      cut (preserves (fun w => Forall temp_file_only (trace w)) c);
        [intros Hp; apply Hp|] end.
  - unfold process_file. preserve; trace_step.
  - unfold start_recording. preserve; trace_step.
  - unfold stop_recording. preserve; trace_step.
  - unfold update_timer. preserve; trace_step.
Qed.

(** X18: whatever the user does, the program only ever writes and removes
    temp_recording.wav, and writes it at 44100 Hz. *)
Theorem reachable_temp_file_only (tools : Tools) (w : World) :
  reachable tools w → Forall temp_file_only (trace w).
Proof.
  unfold reachable. revert w.
  apply (rtc_ind_r (fun w => Forall temp_file_only (trace w)) initial_world).
  - constructor.
  - intros w1 w2 _ Hstep Hw1. by eapply temp_file_only_step.
Qed.

Lemma py_int_self (x : Q) : py_int (x - x) = 0.
Proof.
  unfold py_int. destruct x as [n d]. simpl.
  replace (n * Z.pos d + - n * Z.pos d) with 0 by ring. apply Z.quot_0_l. lia.
Qed.

Lemma analysis_exists (tools : Tools) (transcript : string) (audio_duration : Q) :
  rate_defined transcript audio_duration →
  ∃ v details eb total m,
    check_grammar tools transcript = Ok (v, details, eb, total) ∧
    compute_metrics transcript audio_duration eb v = Ok m.
Proof.
  intros [rate Hrate].
  destruct (check_grammar_run tools transcript) as (v & Hrun & _).
  eexists v, _, _, _. rewrite (compute_metrics_run _ _ _ _ _ Hrate).
  eexists. split; [exact Hrun | reflexivity].
Qed.

(** X12: starting a recording always ends normally: the buffer is empty,
    the start time is the clock's, the timer is scheduled and shows 0
    seconds, the analysis widgets are untouched; the stream is the new one
    when it could be opened and the previous one otherwise, and an error
    dialog is shown exactly when opening or starting the stream failed. *)
Theorem start_recording_effect (env : Env) (w : World) :
  ∃ w' new,
    start_recording env w = (Ok tt, w') ∧
    recorded_frames (recorder w') = [] ∧
    recording_start_time (recorder w') = Some (now env) ∧
    timer_job (recorder w') = Some (root_after env) ∧
    timer_label w' = "Recording Time: 0 sec" ∧
    display w' = display w ∧
    recording_stream (recorder w') =
      match sd_InputStream env with
      | Ok s => Some s
      | Raise _ => recording_stream (recorder w)
      end ∧
    trace w' = trace w ++ new ∧
    (Exists hard_error new ↔
     (∃ e, sd_InputStream env = Raise e) ∨ (∃ e, stream_start env = Raise e)).
Proof.
  destruct w as [[stream frames start job] disp label inline tr].
  unfold start_recording, update_timer, try_except, showerror, mbind, M_bind, external,
    gets, modify. simpl. rewrite py_int_self.
  destruct (sd_InputStream env) as [s|e1]; simpl.
  - destruct (stream_start env) as [[]|e2]; simpl;
      eexists _, _; (split; [reflexivity|]); simpl; rewrite <- ?app_assoc;
      repeat (split; [reflexivity|]); simpl.
    + split.
      * intros H. repeat (apply Exists_cons in H as [[] | H]). by apply Exists_nil in H.
      * intros [[e [=]] | [e [=]]].
    + split; [intros _; right; by eexists|]. intros _.
      do 3 apply Exists_cons_tl. by apply Exists_cons_hd.
  - eexists _, _. split; [reflexivity|]. simpl. rewrite <- ?app_assoc.
    repeat (split; [reflexivity|]). simpl.
    split; [intros _; left; by eexists|]. intros _.
    do 2 apply Exists_cons_tl. by apply Exists_cons_hd.
Qed.

(** X15: stopping a running recording with chunks in its buffer, the
    device and the disk working, after a time at which the speaking rate has
    a value: the chunks are written, joined, to the temporary file, which is
    transcribed; the duration of the metrics is the clock minus the start
    time; the widgets show the analysis; the file is removed last, and a
    removal that fails is not reported. *)
Theorem stop_recording_analyses_recording (tools : Tools) (env : Env) (w : World)
    (s : Stream) (t0 : Q) (c : Chunk) (cs : list Chunk) :
  recording_stream (recorder w) = Some s →
  recording_start_time (recorder w) = Some t0 →
  recorded_frames (recorder w) = c :: cs →
  stream_stop env = Ok tt → stream_close env = Ok tt → sf_write env = Ok tt →
  let transcript := match model_transcribe env with Ok t => t | Raise _ => "" end in
  rate_defined transcript (now env - t0) →
  ∃ v details eb total m w' new,
    check_grammar tools transcript = Ok (v, details, eb, total) ∧
    compute_metrics transcript (now env - t0) eb v = Ok m ∧
    stop_recording tools env w = (Ok tt, w') ∧
    trace w' = trace w ++ new ∧
    SfWrite TEMP_AUDIO_FILE (concat (c :: cs)) SAMPLE_RATE ∈ new ∧
    Invoke Transcribe TEMP_AUDIO_FILE ∈ new ∧
    last new = Some (OsRemove TEMP_AUDIO_FILE) ∧
    ¬ Exists recording_error new ∧
    recording_stream (recorder w') = None ∧
    timer_label w' = "Recording Stopped" ∧
    transcript_text (display w') = transcript ∧
    report_text (display w') =
      generate_report tools m (advanced_style_analysis tools transcript)
        (contextual_language_feedback transcript details) ∧
    inline_errors w' = ∅.
Proof.
  destruct w as [[stream frames start job] disp label inline tr]. simpl.
  intros -> -> -> Hstop Hclose Hwrite.
  set (transcript := match model_transcribe env with Ok t => t | Raise _ => "" end).
  intros Hrate.
  destruct (analysis_exists tools transcript (now env - t0) Hrate)
    as (v & details & eb & total & m & Hcheck & Hmetrics).
  exists v, details, eb, total, m.
  unfold stop_recording, transcribe_audio, show_analysis, clear_inline_errors, analyse,
    showerror, try_except, mbind, M_bind, external, gets, modify, lift.
  simpl. rewrite Hstop. simpl. rewrite Hclose. simpl.
  destruct job as [j|]; [destruct (decide (j = "")) as [Hj|Hj]|]; simpl; rewrite Hwrite; simpl;
    unfold transcript in *; destruct (model_transcribe env) as [t|failure]; simpl;
    rewrite Hcheck; simpl; rewrite Hmetrics; simpl;
    destruct (os_remove env) as [[]|failure']; simpl;
    eexists _, _; (split; [reflexivity|]); (split; [reflexivity|]);
    (split; [reflexivity|]); simpl; rewrite <- ?app_assoc;
    (split; [reflexivity|]); simpl;
    (split; [set_solver|]); (split; [set_solver|]); (split; [reflexivity|]);
    (split; [|repeat split; reflexivity]);
    intros H; repeat (apply Exists_cons in H as [[] | H]); by apply Exists_nil in H.
Qed.

(** X16: when the temporary file cannot be written the failure is shown
    in a dialog, no step of the pipeline runs and the widgets keep their
    contents; the stream is closed all the same, so that a second stop only
    reports that no recording was started although the chunks are still in
    the buffer. *)
Theorem stop_recording_write_failure (tools : Tools) (env : Env) (w : World)
    (s : Stream) (t0 : Q) (c : Chunk) (cs : list Chunk) (failure : exn) :
  recording_stream (recorder w) = Some s →
  recording_start_time (recorder w) = Some t0 →
  recorded_frames (recorder w) = c :: cs →
  stream_stop env = Ok tt → stream_close env = Ok tt → sf_write env = Raise failure →
  ∃ w' new,
    stop_recording tools env w = (Ok tt, w') ∧
    trace w' = trace w ++ new ∧
    last new = Some (ShowError "Recording Error"
                       ("Error stopping recording: " +:+ exn_str failure)) ∧
    ¬ Exists runs_pipeline new ∧
    display w' = display w ∧
    timer_label w' = timer_label w ∧
    recorded_frames (recorder w') = c :: cs ∧
    recording_stream (recorder w') = None ∧
    ∀ env', stop_recording tools env' w'
            = (Ok tt, with_timer_label "Recording was not started." w').
Proof.
  destruct w as [[stream frames start job] disp label inline tr]. simpl.
  intros -> -> -> Hstop Hclose Hwrite.
  unfold stop_recording, showerror, try_except, mbind, M_bind, external, gets, modify, lift.
  simpl. rewrite Hstop. simpl. rewrite Hclose. simpl.
  destruct job as [j|]; [destruct (decide (j = "")) as [Hj|Hj]|]; simpl; rewrite Hwrite; simpl;
    eexists _, _; (split; [reflexivity|]); simpl; rewrite <- ?app_assoc;
    (split; [reflexivity|]); simpl; (split; [reflexivity|]);
    (split; [intros H; repeat (apply Exists_cons in H as [[] | H]);
             by apply Exists_nil in H|]);
    repeat (split; [reflexivity|]); intros env'; reflexivity.
Qed.

Lemma transcribe_audio_run (env : Env) (file_path : string) (w : World) :
  transcribe_audio env file_path w =
  (Ok match model_transcribe env with Ok t => t | Raise _ => "" end,
   match model_transcribe env with
   | Ok _ => with_event (Invoke Transcribe file_path) w
   | Raise e =>
       with_event (ShowError "Transcription Error"
                     ("Error during transcription: " +:+ exn_str e))
         (with_event (Invoke Transcribe file_path) w)
   end).
Proof.
  unfold transcribe_audio, try_except, external. by destruct (model_transcribe env).
Qed.

(** X11: cancelling the file dialog changes nothing. With a file chosen,
    and a duration at which the speaking rate has a value, the controller
    ends normally, whether Whisper and soundfile fail or not: it analyses
    Whisper's text, or the empty string, over the duration of the file, or
    0, shows transcript, score, details and report, clears the highlights,
    writes no file and leaves recorder and status alone. *)
Theorem process_file_run (tools : Tools) (env : Env) (w : World) :
  (askopenfilename env = "" → process_file tools env w = (Ok tt, w)) ∧
  (askopenfilename env ≠ "" →
   let transcript := match model_transcribe env with Ok t => t | Raise _ => "" end in
   let audio_duration := match sf_info_duration env with Ok d => d | Raise _ => 0%Q end in
   rate_defined transcript audio_duration →
   ∃ v details eb total m w' new,
     check_grammar tools transcript = Ok (v, details, eb, total) ∧
     compute_metrics transcript audio_duration eb v = Ok m ∧
     process_file tools env w = (Ok tt, w') ∧
     trace w' = trace w ++ new ∧
     ¬ Exists writes_file new ∧
     recorder w' = recorder w ∧
     timer_label w' = timer_label w ∧
     inline_errors w' = ∅ ∧
     transcript_text (display w') = transcript ∧
     score_label (display w') =
       "Grammar Score: " +:+ str_num tools v
         +:+ " (Total Errors: " +:+ str_int total +:+ ")" ∧
     errors_text (display w') =
       match details with
       | [] => "No grammatical errors found."
       | _ :: _ => PyStr.join (nl +:+ nl) details
       end ∧
     report_text (display w') =
       generate_report tools m (advanced_style_analysis tools transcript)
         (contextual_language_feedback transcript details)).
Proof.
  split.
  - intros Hnone. unfold process_file. by rewrite Hnone.
  - intros Hpath transcript audio_duration Hrate.
    destruct (analysis_exists tools transcript audio_duration Hrate)
      as (v & details & eb & total & m & Hcheck & Hmetrics).
    exists v, details, eb, total, m.
    unfold process_file. destruct (askopenfilename env) as [|ch path]; [done|].
    rewrite bind_run, transcribe_audio_run, bind_run, try_external_default, bind_run.
    fold transcript audio_duration.
    rewrite (analyse_run _ _ _ _ _ _ _ _ _ Hcheck Hmetrics).
    destruct w as [rec disp label inline tr].
    destruct (model_transcribe env) as [t|failure];
      eexists _, _; (split; [exact Hcheck|]); (split; [exact Hmetrics|]);
      (split; [reflexivity|]); simpl; rewrite <- ?app_assoc;
      (split; [reflexivity|]);
      (split; [intros H; repeat (apply Exists_cons in H as [[] | H]);
               by apply Exists_nil in H|]);
      repeat split; reflexivity.
Qed.

Lemma removals_covered_app (w w' : World) (new : list event) :
  trace w' = trace w ++ new →
  (length (filter (fun e => is_remove e = true) new)
   ≤ length (filter (fun e => is_write e = true) new))%nat →
  removals_covered w → removals_covered w'.
Proof.
  unfold removals_covered. intros -> Hnew Hw. rewrite !filter_app, !length_app. lia.
Qed.

Lemma stop_recording_removals (tools : Tools) (env : Env) (w : World) :
  ∃ new, trace (stop_recording tools env w).2 = trace w ++ new ∧
         (length (filter (fun e => is_remove e = true) new)
          ≤ length (filter (fun e => is_write e = true) new))%nat.
Proof.
  destruct w as [[stream frames start job] disp label inline tr].
  unfold stop_recording, transcribe_audio, show_analysis, clear_inline_errors, analyse,
    showerror, try_except, mbind, M_bind, external, gets, modify, lift.
  simpl. destruct stream as [s|]; simpl; [|exists []; by rewrite app_nil_r].
  destruct (stream_stop env) as [[]|?]; simpl;
    [|eexists; split; [rewrite <- ?app_assoc; reflexivity | simpl; lia]].
  destruct (stream_close env) as [[]|?]; simpl;
    [|eexists; split; [rewrite <- ?app_assoc; reflexivity | simpl; lia]].
  destruct job as [j|]; [destruct (decide (j = "")) as [Hj|Hj]|]; simpl;
    (destruct start as [t0|]; simpl;
      [|eexists; split; [rewrite <- ?app_assoc; reflexivity | simpl; lia]]);
    (destruct frames as [|c cs]; simpl;
      [eexists; split; [rewrite <- ?app_assoc; reflexivity | simpl; lia]|]);
    (destruct (sf_write env) as [[]|?]; simpl;
      [|eexists; split; [rewrite <- ?app_assoc; reflexivity | simpl; lia]]);
    destruct (model_transcribe env) as [t|?]; simpl;
    match goal with |- context [check_grammar tools ?t] =>
      destruct (check_grammar_run tools t) as (v & Hcheck & _) end;
    rewrite Hcheck; simpl;
    (destruct (compute_metrics _ _ _ _) as [m|?]; simpl;
      [destruct (os_remove env) as [[]|?]; simpl|]);
    eexists; (split; [rewrite <- ?app_assoc; reflexivity | simpl; lia]).
Qed.

Ltac covered_step :=
  match goal with
  | H : removals_covered ?w |- removals_covered (with_event ?e ?w) =>
      apply (removals_covered_app w _ [e]); [reflexivity | simpl; lia | exact H]
  | H : removals_covered ?w |- removals_covered _ => exact H
  end.

Lemma removals_covered_step (tools : Tools) (w w' : World) :
  step tools w w' → removals_covered w → removals_covered w'.
Proof.
  intros Hstep. destruct Hstep as [env w|env w|env w|env w|indata w|d m w];
    try (intros Hw; exact Hw).
  - cut (preserves removals_covered (process_file tools env)); [intros Hp; apply Hp|].
    unfold process_file. preserve; covered_step.
  - cut (preserves removals_covered (start_recording env)); [intros Hp; apply Hp|].
    unfold start_recording. preserve; covered_step.
  - destruct (stop_recording_removals tools env w) as (new & Htrace & Hnew).
    by apply (removals_covered_app w _ new).
  - cut (preserves removals_covered (update_timer env)); [intros Hp; apply Hp|].
    unfold update_timer. preserve; covered_step.
Qed.

(** X19: whatever the user does, the program never removes the temporary
    file more often than it has written it. *)
Theorem reachable_removals_covered (tools : Tools) (w : World) :
  reachable tools w →
  (length (filter (fun e => is_remove e = true) (trace w))
   ≤ length (filter (fun e => is_write e = true) (trace w)))%nat.
Proof.
  unfold reachable. revert w. apply (rtc_ind_r removals_covered initial_world).
  - unfold removals_covered. simpl. lia.
  - intros w1 w2 _ Hstep Hw1. by eapply removals_covered_step.
Qed.

Lemma audio_callbacks_run (chunks : list Chunk) (w : World) :
  foldl (fun w indata => (audio_callback indata w).2) w chunks =
  with_recorder {| recording_stream := recording_stream (recorder w);
                   recorded_frames := recorded_frames (recorder w) ++ chunks;
                   recording_start_time := recording_start_time (recorder w);
                   timer_job := timer_job (recorder w) |} w.
Proof.
  revert w. induction chunks as [|c chunks IH]; intros w.
  - simpl. rewrite app_nil_r. by destruct w as [[] ? ? ? ?].
  - cbn [foldl]. rewrite IH. unfold audio_callback, modify. simpl.
    unfold with_recorder. simpl. by rewrite <- app_assoc.
Qed.

(** X14: a whole session: start, at least one chunk, stop, with a working
    device, after a time at which the speaking rate has a value. What is
    written is the chunks that arrived since the start, in
    their order, and nothing buffered before; the timer is cancelled; the
    duration of the metrics is the time between the two clock readings. *)
Theorem recording_session (tools : Tools) (env1 env2 : Env) (w : World)
    (s : Stream) (c : Chunk) (cs : list Chunk) :
  sd_InputStream env1 = Ok s → stream_start env1 = Ok tt → root_after env1 ≠ "" →
  stream_stop env2 = Ok tt → stream_close env2 = Ok tt → sf_write env2 = Ok tt →
  let w1 := (start_recording env1 w).2 in
  let w2 := foldl (fun w indata => (audio_callback indata w).2) w1 (c :: cs) in
  let transcript := match model_transcribe env2 with Ok t => t | Raise _ => "" end in
  rate_defined transcript (now env2 - now env1) →
  ∃ v details eb total m w3,
    check_grammar tools transcript = Ok (v, details, eb, total) ∧
    compute_metrics transcript (now env2 - now env1) eb v = Ok m ∧
    stop_recording tools env2 w2 = (Ok tt, w3) ∧
    (∀ path data rate, SfWrite path data rate ∈ drop (length (trace w)) (trace w3) →
       path = TEMP_AUDIO_FILE ∧ data = concat (c :: cs) ∧ rate = SAMPLE_RATE) ∧
    SfWrite TEMP_AUDIO_FILE (concat (c :: cs)) SAMPLE_RATE ∈ trace w3 ∧
    AfterCancel (root_after env1) ∈ trace w3 ∧
    recording_stream (recorder w3) = None ∧
    timer_job (recorder w3) = None ∧
    transcript_text (display w3) = transcript ∧
    report_text (display w3) =
      generate_report tools m (advanced_style_analysis tools transcript)
        (contextual_language_feedback transcript details).
Proof.
  intros Hopen Hstart Hjob Hstop Hclose Hwrite w1 w2 transcript Hrate.
  destruct (analysis_exists tools transcript (now env2 - now env1) Hrate)
    as (v & details & eb & total & m & Hcheck & Hmetrics).
  exists v, details, eb, total, m.
  unfold w2. rewrite audio_callbacks_run. unfold w1.
  destruct w as [[stream frames start job] disp label inline tr].
  unfold start_recording, update_timer, try_except, showerror, mbind, M_bind, external,
    gets, modify. simpl. rewrite Hopen. simpl. rewrite Hstart. simpl.
  unfold stop_recording, transcribe_audio, show_analysis, clear_inline_errors, analyse,
    showerror, try_except, mbind, M_bind, external, gets, modify, lift.
  simpl. rewrite Hstop. simpl. rewrite Hclose. simpl.
  destruct (decide (root_after env1 = "")) as [Hj|_]; [done|]. simpl.
  rewrite Hwrite. simpl.
  unfold transcript in *. destruct (model_transcribe env2) as [t|failure]; simpl;
    rewrite Hcheck; simpl; rewrite Hmetrics; simpl;
    destruct (os_remove env2) as [[]|failure']; simpl;
    eexists; (split; [reflexivity|]); (split; [reflexivity|]);
    (split; [reflexivity|]); simpl; rewrite <- ?app_assoc, ?drop_app_length;
    (split; [intros path data rate Hin;
             repeat (apply elem_of_cons in Hin as [[=] | Hin]); subst; try done;
             by apply elem_of_nil in Hin|]);
    (split; [set_solver|]); (split; [set_solver|]);
    repeat split; reflexivity.
Qed.

Lemma py_int_floor (x : Q) : (0 <= x)%Q → py_int x = Qfloor x.
Proof.
  intros Hx. unfold py_int, Qfloor. destruct x as [n d]. simpl.
  apply Z.quot_div_nonneg; [|lia].
  unfold Qle in Hx. simpl in Hx. lia.
Qed.

(** X13: while a start time is set and the clock has not gone back, the
    timer shows the whole seconds elapsed since the start and schedules
    itself again; it touches neither the buffer nor the stream. *)
Theorem update_timer_elapsed (env : Env) (w : World) (t0 : Q) :
  recording_start_time (recorder w) = Some t0 →
  (t0 <= now env)%Q →
  ∃ w' seconds,
    update_timer env w = (Ok tt, w') ∧
    timer_label w' = "Recording Time: " +:+ str_int seconds +:+ " sec" ∧
    (inject_Z seconds <= now env - t0)%Q ∧
    (now env - t0 < inject_Z seconds + 1)%Q ∧
    timer_job (recorder w') = Some (root_after env) ∧
    trace w' = trace w ++ [After (root_after env)] ∧
    recorded_frames (recorder w') = recorded_frames (recorder w) ∧
    recording_stream (recorder w') = recording_stream (recorder w) ∧
    display w' = display w.
Proof.
  intros Hstart Hclock. destruct w as [[stream frames start job] disp label inline tr].
  simpl in Hstart. subst start.
  unfold update_timer, mbind, M_bind, gets, modify. simpl.
  eexists _, _. split; [reflexivity|]. simpl. split; [reflexivity|].
  rewrite py_int_floor by lra.
  split; [apply Qfloor_le|]. split; [|repeat split; reflexivity].
  pose proof (Qlt_floor (now env - t0)) as H. by rewrite inject_Z_plus in H.
Qed.

(** ** The registry of the inline highlights *)

Lemma str_int_inj (n n' : Z) : str_int n = str_int n' → n = n'.
Proof.
  unfold str_int. intros H.
  assert (Hparse : ∀ k, NilZero.int_of_string (NilZero.string_of_int (Z.to_int k))
                        = Some (Z.to_int k)).
  { intros k. apply NilZero.isi; destruct k; simpl; try discriminate;
      intros [= Hnil]; by apply Unsigned.to_uint_nonnil in Hnil. }
  apply DecimalZ.to_int_inj.
  pose proof (Hparse n) as Hn. rewrite H, Hparse in Hn. by injection Hn.
Qed.

Lemma error_tag_inj (i j : Z) : error_tag i = error_tag j → i = j.
Proof.
  unfold error_tag. intros H. apply str_int_inj.
  by apply (inj (String.app "error_")) in H.
Qed.

Lemma inline_loop_tagged (matches : list IssueMatch) (i : Z)
    (registry : gmap string IssueMatch) :
  (∀ k m, matches !! k = Some m →
     inline_loop i matches registry !! error_tag (i + Z.of_nat k) = Some m) ∧
  (∀ tag, (∀ k, (k < length matches)%nat → tag ≠ error_tag (i + Z.of_nat k)) →
     inline_loop i matches registry !! tag = registry !! tag).
Proof.
  revert i registry. induction matches as [|m0 rest IH]; intros i registry.
  - split; [by intros k m ?|done].
  - destruct (IH (i + 1) (<[error_tag i := m0]> registry)) as [IH1 IH2]. split.
    + intros [|k] m Hk; simpl in Hk; cbn [inline_loop].
      * injection Hk as ->. rewrite IH2.
        -- rewrite Z.add_0_r. apply lookup_insert_eq.
        -- intros k _ Heq%error_tag_inj. lia.
      * replace (i + Z.of_nat (S k)) with (i + 1 + Z.of_nat k) by lia. by apply IH1.
    + intros tag Htag. cbn [inline_loop]. rewrite IH2.
      * apply lookup_insert_ne. specialize (Htag 0%nat). rewrite Z.add_0_r in Htag.
        intros Heq. apply Htag; [simpl; lia | done].
      * intros k Hk. replace (i + 1 + Z.of_nat k) with (i + Z.of_nat (S k)) by lia.
        apply Htag. simpl. lia.
Qed.

Lemma inline_loop_origin (matches : list IssueMatch) (i : Z)
    (registry : gmap string IssueMatch) (tag : string) :
  is_Some (inline_loop i matches registry !! tag) →
  is_Some (registry !! tag) ∨
  ∃ k, (k < length matches)%nat ∧ tag = error_tag (i + Z.of_nat k).
Proof.
  revert i registry. induction matches as [|m0 rest IH]; intros i registry; [by left|].
  cbn [inline_loop]. intros [H | (k & Hk & ->)]%IH.
  - rewrite lookup_insert in H. case_decide as Htag; [|by left].
    right. exists 0%nat. split; [simpl; lia|]. by rewrite Z.add_0_r.
  - right. exists (S k). split; [simpl; lia|]. f_equal. lia.
Qed.

Lemma inline_loop_size (matches : list IssueMatch) (i : Z)
    (registry : gmap string IssueMatch) :
  (∀ j, i ≤ j → registry !! error_tag j = None) →
  size (inline_loop i matches registry) = (size registry + length matches)%nat.
Proof.
  revert i registry. induction matches as [|m0 rest IH]; intros i registry Hfresh.
  - simpl. lia.
  - cbn [inline_loop]. rewrite IH.
    + rewrite map_size_insert_None by (apply Hfresh; lia). simpl. lia.
    + intros j Hj. rewrite lookup_insert_ne; [apply Hfresh; lia|].
      intros Heq%error_tag_inj. lia.
Qed.

(** X20: after the inline correction the registry holds exactly the
    matches of the displayed transcript, the k-th under the tag error_k: no
    match is lost, no older entry survives. *)
Theorem inline_error_correction_registry (tools : Tools) (w : World) :
  let matches := tool_check tools (transcript_text (display w)) in
  ∃ w', inline_error_correction tools w = (Ok tt, w') ∧
        display w' = display w ∧ recorder w' = recorder w ∧ trace w' = trace w ∧
        (∀ k m, matches !! k = Some m →
           inline_errors w' !! error_tag (Z.of_nat k) = Some m) ∧
        (∀ tag, is_Some (inline_errors w' !! tag) →
           ∃ k, (k < length matches)%nat ∧ tag = error_tag (Z.of_nat k)) ∧
        size (inline_errors w') = length matches.
Proof.
  intros matches.
  unfold inline_error_correction, clear_inline_errors, mbind, M_bind, gets, modify.
  simpl. eexists. split; [reflexivity|]. simpl.
  split; [reflexivity|]. split; [reflexivity|]. split; [reflexivity|].
  fold matches. split; [|split].
  - intros k m Hk. by apply (inline_loop_tagged matches 0 ∅).
  - intros tag [H | H]%inline_loop_origin; [|exact H].
    rewrite lookup_empty in H. by destruct H.
  - rewrite inline_loop_size; [by rewrite map_size_empty|]. intros j _. apply lookup_empty.
Qed.

(** ** The style analyser *)

(** X10: the recommendations are the sentence on the effective style
    exactly when the grade level is at most 10 and the fog index at most 12;
    else they contain the advice on structure exactly when the grade level
    is above 10 and the advice on vocabulary exactly when the fog index is
    above 12; they are never empty; the comment is the one on clear text
    exactly above a reading ease of 60; the three indices are textstat's. *)
Theorem advanced_style_recommendations (tools : Tools) (text : string) :
  let a := advanced_style_analysis tools text in
  (advanced_recommendations a = EFFECTIVE_STYLE
   ↔ (flesch_kincaid_grade a <= 10)%Q ∧ (gunning_fog a <= 12)%Q) ∧
  (is_substring SIMPLIFY_STRUCTURE (advanced_recommendations a)
   ↔ (10 < flesch_kincaid_grade a)%Q) ∧
  (is_substring REDUCE_VOCABULARY (advanced_recommendations a)
   ↔ (12 < gunning_fog a)%Q) ∧
  (style_comment a = CLEAR_COMMENT ↔ (60 < flesch_reading_ease a)%Q) ∧
  advanced_recommendations a ≠ "" ∧
  flesch_reading_ease a = textstat_flesch_reading_ease tools text ∧
  flesch_kincaid_grade a = textstat_flesch_kincaid_grade tools text ∧
  gunning_fog a = textstat_gunning_fog tools text.
Proof.
  cbv zeta. unfold advanced_style_analysis. cbn [advanced_recommendations style_comment
    flesch_reading_ease flesch_kincaid_grade gunning_fog].
  set (fre := textstat_flesch_reading_ease tools text).
  set (fk := textstat_flesch_kincaid_grade tools text).
  set (fog := textstat_gunning_fog tools text).
  assert (Hno1 : PyStr.contains SIMPLIFY_STRUCTURE EFFECTIVE_STYLE = false) by reflexivity.
  assert (Hno2 : PyStr.contains REDUCE_VOCABULARY EFFECTIVE_STYLE = false) by reflexivity.
  assert (Hno3 : PyStr.contains SIMPLIFY_STRUCTURE REDUCE_VOCABULARY = false) by reflexivity.
  assert (Hno4 : PyStr.contains REDUCE_VOCABULARY SIMPLIFY_STRUCTURE = false) by reflexivity.
  assert (Hyes1 : PyStr.contains SIMPLIFY_STRUCTURE SIMPLIFY_STRUCTURE = true) by reflexivity.
  assert (Hyes2 : PyStr.contains REDUCE_VOCABULARY REDUCE_VOCABULARY = true) by reflexivity.
  assert (Hyes3 : PyStr.contains SIMPLIFY_STRUCTURE
            (PyStr.join " " [SIMPLIFY_STRUCTURE; REDUCE_VOCABULARY]) = true) by reflexivity.
  assert (Hyes4 : PyStr.contains REDUCE_VOCABULARY
            (PyStr.join " " [SIMPLIFY_STRUCTURE; REDUCE_VOCABULARY]) = true) by reflexivity.
  rewrite <- !contains_iff.
  destruct (Qlt_le_dec 10 fk) as [Hfk | Hfk]; destruct (Qlt_le_dec 12 fog) as [Hfog | Hfog];
    destruct (Qlt_le_dec 60 fre) as [Hfre | Hfre];
    try destruct (Qlt_le_dec 40 fre) as [Hfre' | Hfre']; cbn [app].
  all: repeat split; try reflexivity; try discriminate; try lra; try done.
  all: try (intros; exfalso; lra).
  all: try (intros [? ?]; exfalso; lra).
  all: try (intros H; vm_compute in H; discriminate H).
Qed.

(** ** The further properties at work *)

Lemma check_grammar_score_bounds_witness :
  ∃ v details eb total,
    check_grammar strict_tools "any text" = Ok (v, details, eb, total) ∧ (v == 0)%Q.
Proof.
  destruct (check_grammar_score_bounds strict_tools "any text")
    as (v & details & eb & total & Hrun & _ & _ & _ & Hzero).
  exists v, details, eb, total. split; [exact Hrun|].
  apply Hzero. vm_compute. discriminate.
Defined.

Lemma check_grammar_details_witness :
  ∃ v details eb total d,
    check_grammar example_tools "teh cats runs" = Ok (v, details, eb, total) ∧
    details !! 0%nat = Some d ∧ is_substring "Category: TYPOS" d ∧
    is_substring "Suggested Correction: the" d.
Proof.
  destruct (check_grammar_details example_tools "teh cats runs")
    as (v & details & eb & total & Hrun & _ & Hdetail).
  destruct (Hdetail 0%nat typo_match eq_refl) as (d & Hd & Htag & _ & _ & Hfix).
  exists v, details, eb, total, d. auto.
Defined.

Lemma check_grammar_feedback_witness :
  ∃ v details eb total,
    check_grammar example_tools "teh cats runs" = Ok (v, details, eb, total) ∧
    is_substring TYPOS_SUGGESTION (contextual_language_feedback "teh cats runs" details).
Proof.
  destruct (check_grammar_feedback example_tools "teh cats runs")
    as (v & details & eb & total & Hrun & _ & Hshown).
  exists v, details, eb, total. split; [exact Hrun|].
  apply (Hshown typo_match). simpl. by left.
Defined.

Lemma word_count_words_witness :
  ∃ m, compute_metrics ("hello there" +:+ " " +:+ "my friend") 10 ∅ 100 = Ok m ∧
       word_count m = 4.
Proof.
  destruct (word_count_words "hello there" "my friend" 10 ∅ 100)
    as (m & ma & mb & Hm & Hma & Hmb & Hsum & _).
  - exists (PyNum.Float (B64.of_Z 24)). vm_compute. reflexivity.
  - exists (PyNum.Float (B64.of_Z 12)). vm_compute. reflexivity.
  - exists (PyNum.Float (B64.of_Z 12)). vm_compute. reflexivity.
  - exists m. split; [exact Hm|]. rewrite Hsum.
    revert Hma Hmb. vm_compute. by intros [= <-] [= <-].
Defined.

Lemma filler_count_positive_witness :
  ∃ m, compute_metrics "Um, hello" 3 ∅ 100 = Ok m ∧ 0 < filler_count m.
Proof.
  destruct (filler_count_positive "Um, hello" 3 ∅ 100) as (m & Hm & _ & Hpos).
  - exists (PyNum.Float (B64.of_Z 40)). vm_compute. reflexivity.
  - exists m. split; [exact Hm|]. apply Hpos. exists "um". split.
    + unfold FILLER_WORDS. by left.
    + apply contains_iff. reflexivity.
Defined.

Lemma wpm_value_witness :
  ∃ m, compute_metrics "a b c" 60 ∅ 100 = Ok m ∧
       wpm m = PyNum.Float (B64.of_Z 3) ∧ nonnegative (wpm m).
Proof.
  destruct (wpm_value "a b c" 60 ∅ 100 (PyNum.Float (B64.of_Z 3)))
    as (m & Hm & Hrate & Hsign & _); [vm_compute; reflexivity|].
  exists m. split; [exact Hm|]. split; [exact Hrate | exact Hsign].
Defined.

Lemma feedback_absorbs_repeats_witness :
  contextual_language_feedback "" ["Category: GRAMMAR"; "again Category: GRAMMAR"]
  = contextual_language_feedback "" ["Category: GRAMMAR"].
Proof.
  apply (feedback_absorbs_repeats "" "" ["Category: GRAMMAR"] ["again Category: GRAMMAR"]).
  intros d c Hd Htag. exists "Category: GRAMMAR". split; [by left|].
  apply list_elem_of_singleton in Hd as ->.
  apply contains_iff in Htag. apply contains_iff.
  destruct c; vm_compute in Htag; try discriminate Htag; reflexivity.
Defined.

Lemma reachable_recording_world : reachable example_tools recording_world.
Proof. apply rtc_once. apply step_start_recording. Qed.

Lemma reachable_finished_world : reachable example_tools finished_world.
Proof.
  eapply rtc_r; [|apply step_stop_recording].
  eapply rtc_r; [|apply step_audio_callback].
  apply reachable_recording_world.
Qed.

Lemma reachable_temp_file_only_witness :
  Forall temp_file_only (trace finished_world) ∧
  SfWrite TEMP_AUDIO_FILE [1%Q; 2%Q] SAMPLE_RATE ∈ trace finished_world ∧
  OsRemove TEMP_AUDIO_FILE ∈ trace finished_world.
Proof.
  split; [apply (reachable_temp_file_only example_tools), reachable_finished_world|].
  vm_compute. split; set_solver.
Defined.

Lemma reachable_removals_covered_witness :
  (length (filter (fun e => is_remove e = true) (trace finished_world))
   ≤ length (filter (fun e => is_write e = true) (trace finished_world)))%nat ∧
  length (filter (fun e => is_remove e = true) (trace finished_world)) = 1%nat.
Proof.
  split; [apply (reachable_removals_covered example_tools), reachable_finished_world|].
  reflexivity.
Defined.

Lemma stop_recording_analyses_recording_witness :
  ∃ w', stop_recording example_tools later_env recorded_world = (Ok tt, w') ∧
        timer_label w' = "Recording Stopped" ∧
        recording_stream (recorder w') = None ∧
        transcript_text (display w') = "teh cats runs".
Proof.
  destruct (stop_recording_analyses_recording example_tools later_env recorded_world
              1%nat 12 [1%Q; 2%Q] [] eq_refl eq_refl eq_refl eq_refl eq_refl eq_refl)
    as (v & details & eb & total & m & w' & new & _ & _ & Hrun & _ & _ & _ & _ & _
        & Hstream & Hlabel & Htext & _).
  - exists (PyNum.Float (B64.of_Z 6)). vm_compute. reflexivity.
  - exists w'. auto.
Defined.

Lemma stop_recording_write_failure_witness :
  ∃ w', stop_recording example_tools write_failure_env recorded_world = (Ok tt, w') ∧
        display w' = display recorded_world ∧
        recording_stream (recorder w') = None.
Proof.
  destruct (stop_recording_write_failure example_tools write_failure_env recorded_world
              1%nat 12 [1%Q; 2%Q] [] (ExternalError "disk full")
              eq_refl eq_refl eq_refl eq_refl eq_refl eq_refl)
    as (w' & new & Hrun & _ & _ & _ & Hdisplay & _ & _ & Hstream & _).
  exists w'. auto.
Defined.

Lemma process_file_run_witness :
  ∃ w', process_file example_tools example_env initial_world = (Ok tt, w') ∧
        transcript_text (display w') = "" ∧ inline_errors w' = ∅.
Proof.
  destruct (process_file_run example_tools example_env initial_world) as [_ Hrun].
  destruct Hrun as (v & details & eb & total & m & w' & new & _ & _ & Hrun & _ & _ & _ & _
                    & Hinline & Htext & _); [discriminate| |].
  - exists (PyNum.Float (S754_zero false)). vm_compute. reflexivity.
  - exists w'. auto.
Defined.

Lemma recording_session_witness :
  ∃ w3, stop_recording example_tools later_env
          (foldl (fun w indata => (audio_callback indata w).2)
                 (start_recording example_env initial_world).2 [[1%Q; 2%Q]; [3%Q]])
        = (Ok tt, w3) ∧
        SfWrite TEMP_AUDIO_FILE [1%Q; 2%Q; 3%Q] SAMPLE_RATE ∈ trace w3.
Proof.
  destruct (recording_session example_tools example_env later_env initial_world
              1%nat [1%Q; 2%Q] [[3%Q]] eq_refl eq_refl)
    as (v & details & eb & total & m & w3 & _ & _ & Hrun & _ & Hwrite & _);
    [discriminate | reflexivity | reflexivity | reflexivity | |].
  - exists (PyNum.Float (B64.of_Z 6)). vm_compute. reflexivity.
  - exists w3. auto.
Defined.

Lemma inline_error_correction_registry_witness :
  ∃ w', inline_error_correction example_tools transcript_world = (Ok tt, w') ∧
        inline_errors w' !! "error_0" = Some typo_match ∧
        inline_errors w' !! "error_1" = Some agreement_match.
Proof.
  destruct (inline_error_correction_registry example_tools transcript_world)
    as (w' & Hrun & _ & _ & _ & Hlookup & _).
  exists w'. split; [exact Hrun|]. split.
  - apply (Hlookup 0%nat). reflexivity.
  - apply (Hlookup 1%nat). reflexivity.
Defined.

Lemma update_timer_elapsed_witness :
  ∃ w' seconds, update_timer example_env recording_world = (Ok tt, w') ∧
                timer_label w' = "Recording Time: " +:+ str_int seconds +:+ " sec" ∧
                (inject_Z seconds <= 0)%Q.
Proof.
  destruct (update_timer_elapsed example_env recording_world 12 eq_refl)
    as (w' & seconds & Hrun & Hlabel & Hlow & _).
  - vm_compute. discriminate.
  - exists w', seconds. auto.
Defined.
